(** * finalize_migration.py: the toast-call rewriting script

    A shallow embedding of [src/frontend/finalize_migration.py].  The script
    rewrites [toast({ ... })] calls with Python's [re] module, so the
    development starts with a small backtracking matcher that follows the
    search order of [re] (leftmost match, greedy and lazy repetition tried in
    priority order, capture groups, back-references), then writes every
    pattern of the script as a value of that matcher's syntax, and finally
    the functions [replace_toast_multiline], [create_backup], [process_file]
    and the file loop of [main]. *)

From Stdlib Require Import List NArith ZArith Lia Bool String Ascii.
From stdpp Require Import base option list gmap.
Import ListNotations.

Set Default Proof Using "Type".
Local Open Scope N_scope.

(** ** Text *)

(** A Python [str] is a sequence of Unicode code points. *)
Abbreviation char := N.
Abbreviation text := (list N).

(** An ASCII character and an ASCII literal of the script, as code points. *)
Definition ch (a : ascii) : char := N_of_ascii a.
Definition lit (s : string) : text := map N_of_ascii (list_ascii_of_string s).
Arguments ch a%_char : simpl never.
Arguments lit s%_string : simpl never.

Definition dquote : char := 34.
Definition squote : char := 39.
Definition bslash : char := 92.
Definition backtick : char := 96.
Definition newline : char := 10.

(** [c in cs], as a boolean. *)
Definition one_of (cs : list char) (c : char) : bool := existsb (N.eqb c) cs.
Definition none_of (cs : list char) (c : char) : bool := negb (one_of cs c).

(** [\s] on a [str] pattern: the code points Python calls whitespace. *)
Definition is_space (c : char) : bool :=
  ((9 <=? c) && (c <=? 13)) || ((28 <=? c) && (c <=? 32))
  || (c =? 133) || (c =? 160) || (c =? 5760)
  || ((8192 <=? c) && (c <=? 8202))
  || (c =? 8232) || (c =? 8233) || (c =? 8239) || (c =? 8287) || (c =? 12288).

(** [.] without [re.DOTALL]: anything but a line feed. *)
Definition dot (c : char) : bool := negb (c =? newline).

(** ** The matcher *)

Inductive regex : Type :=
| Eps
| Chr (a : char)
| Cls (p : char -> bool)
| Seq (r1 r2 : regex)
| Alt (r1 r2 : regex)
| Star (greedy : bool) (r : regex)
| Group (i : nat) (r : regex)
| Backref (i : nat).

(** Captured groups, latest binding first. *)
Abbreviation caps := (list (nat * text)).

Fixpoint get_group (i : nat) (c : caps) : option text :=
  match c with
  | [] => None
  | (j, t) :: c' => if Nat.eqb i j then Some t else get_group i c'
  end.

Fixpoint starts_with (p s : text) : bool :=
  match p, s with
  | [], _ => true
  | a :: p', b :: s' => (a =? b) && starts_with p' s'
  | _ :: _, [] => false
  end.

(** What the matcher hands to its continuation: the text still to read and
    the groups captured so far. *)
Abbreviation outcome := (option (text * caps)).
Abbreviation cont := (text -> caps -> outcome).

(** The loop of a repetition over the matcher [body] of its operand: at most
    [n] further iterations, each of which has to consume something.  A greedy
    repetition tries one more iteration before it lets [k] continue, a lazy
    one the other way round. *)
Fixpoint star_loop (body : text -> caps -> cont -> outcome) (greedy : bool)
    (k : cont) (n : nat) (s : text) (c : caps) {struct n} : outcome :=
  match n with
  | O => k s c
  | S n' =>
      let again (_ : unit) :=
        body s c (fun s' c' =>
          if Nat.ltb (length s') (length s)
          then star_loop body greedy k n' s' c' else None) in
      if greedy then
        match again tt with
        | Some o => Some o
        | None => k s c
        end
      else
        match k s c with
        | Some o => Some o
        | None => again tt
        end
  end.

(** [m r s c k] matches [r] at the head of [s] and continues with [k]; when
    [k] fails the next alternative of [r] is tried, in the order of [re]. *)
Fixpoint m (r : regex) (s : text) (c : caps) (k : cont) {struct r} : outcome :=
  match r with
  | Eps => k s c
  | Chr a =>
      match s with
      | x :: s' => if x =? a then k s' c else None
      | [] => None
      end
  | Cls p =>
      match s with
      | x :: s' => if p x then k s' c else None
      | [] => None
      end
  | Seq r1 r2 => m r1 s c (fun s' c' => m r2 s' c' k)
  | Alt r1 r2 =>
      match m r1 s c k with
      | Some o => Some o
      | None => m r2 s c k
      end
  | Star greedy r' => star_loop (m r') greedy k (length s) s c
  | Group i r' =>
      m r' s c (fun s' c' =>
        k s' ((i, firstn (length s - length s') s) :: c'))
  | Backref i =>
      match get_group i c with
      | Some g => if starts_with g s then k (skipn (length g) s) c else None
      | None => None
      end
  end.

(** Concatenation of a literal and of a list of patterns. *)
Fixpoint Lit (l : text) : regex :=
  match l with
  | [] => Eps
  | a :: l' => Seq (Chr a) (Lit l')
  end.

Fixpoint Cat (rs : list regex) : regex :=
  match rs with
  | [] => Eps
  | [r] => r
  | r :: rs' => Seq r (Cat rs')
  end.

(** [r+] *)
Definition Plus (r : regex) : regex := Seq r (Star true r).

(** A match object: [group(0)] and the numbered groups. *)
Record re_match : Type := MkMatch { m_all : text; m_caps : caps }.

Definition group (i : nat) (mt : re_match) : text :=
  match i with
  | O => m_all mt
  | _ => default [] (get_group i (m_caps mt))
  end.

(** [pattern.match(s)]: a match anchored at the head of [s], with the text
    that follows it. *)
Definition match_here (r : regex) (s : text) : option (re_match * text) :=
  match m r s [] (fun s' c' => Some (s', c')) with
  | Some (s', c') => Some (MkMatch (firstn (length s - length s') s) c', s')
  | None => None
  end.

(** [re.search(r, s)]: the leftmost match. *)
Fixpoint re_search (r : regex) (s : text) : option re_match :=
  match match_here r s with
  | Some (mt, _) => Some mt
  | None =>
      match s with
      | [] => None
      | _ :: s' => re_search r s'
      end
  end.

(** The scanner behind [re.sub], [re.findall] and [re.finditer]: the text cut
    into the characters outside any match and the successive non-overlapping
    matches, left to right.  [skip] counts the characters of the last match
    still to be stepped over. *)
Inductive piece : Type :=
| Keep (c : char)
| Hit (mt : re_match).

Fixpoint scan (r : regex) (skip : nat) (s : text) {struct s} : list piece :=
  match skip with
  | S skip' =>
      match s with
      | [] => []
      | _ :: s' => scan r skip' s'
      end
  | O =>
      match match_here r s with
      | Some (mt, _) =>
          Hit mt ::
          match length (m_all mt), s with
          | O, x :: s' => Keep x :: scan r O s'
          | S n, _ :: s' => scan r n s'
          | _, [] => []
          end
      | None =>
          match s with
          | [] => []
          | x :: s' => Keep x :: scan r O s'
          end
      end
  end.

Definition re_finditer (r : regex) (s : text) : list re_match :=
  omap (fun p => match p with Hit mt => Some mt | Keep _ => None end) (scan r O s).

(** [len(re.findall(r, s))] *)
Definition re_count (r : regex) (s : text) : nat := length (re_finditer r s).

(** [re.sub(r, repl, s)] with a function as replacement. *)
Definition re_sub_with (r : regex) (repl : re_match -> text) (s : text) : text :=
  concat (map (fun p => match p with Hit mt => repl mt | Keep c => [c] end) (scan r O s)).

(** [re.sub(r, repl, s)] with a replacement text without back-references. *)
Definition re_sub (r : regex) (repl : text) (s : text) : text :=
  re_sub_with r (fun _ => repl) s.

(** ** The patterns of the script *)

(** [\s*] *)
Definition ws_star : regex := Star true (Cls is_space).

(** [r'toast\s*\(\s*\{([^}]+)\}\s*\)'], the pattern of
    [replace_toast_multiline]. *)
Definition pattern : regex :=
  Cat [Lit (lit "toast"); ws_star; Chr (ch "("); ws_star; Chr (ch "{");
       Group 1 (Plus (Cls (none_of [ch "}"])));
       Chr (ch "}"); ws_star; Chr (ch ")")].

(** [(["\'])((?:[^"\'\\]|\\.)*?)\1], the quoted value of a field. *)
Definition quoted_value : regex :=
  Cat [Group 1 (Cls (one_of [dquote; squote]));
       Group 2 (Star false (Alt (Cls (none_of [dquote; squote; bslash]))
                                (Seq (Chr bslash) (Cls dot))));
       Backref 1].

(** A backtick, group 1 = [[^`]*], a backtick: the template-literal value of
    a field. *)
Definition template_value : regex :=
  Cat [Chr backtick; Group 1 (Star true (Cls (none_of [backtick]))); Chr backtick].

(** [r'title:\s*(["\'])((?:[^"\'\\]|\\.)*?)\1'] *)
Definition title_re : regex := Cat [Lit (lit "title:"); ws_star; quoted_value].
(** [r'title:\s*] followed by the template-literal value *)
Definition title_template_re : regex := Cat [Lit (lit "title:"); ws_star; template_value].
(** [r'description:\s*(["\'])((?:[^"\'\\]|\\.)*?)\1'] *)
Definition desc_re : regex := Cat [Lit (lit "description:"); ws_star; quoted_value].
(** [r'description:\s*] followed by the template-literal value *)
Definition desc_template_re : regex :=
  Cat [Lit (lit "description:"); ws_star; template_value].
(** [r'variant:\s*["\']destructive["\']'] *)
Definition variant_re : regex :=
  Cat [Lit (lit "variant:"); ws_star; Cls (one_of [dquote; squote]);
       Lit (lit "destructive"); Cls (one_of [dquote; squote])].

(** [r'toast\s*\(\s*\{'], counted before and after the rewriting. *)
Definition toast_open_re : regex :=
  Cat [Lit (lit "toast"); ws_star; Chr (ch "("); ws_star; Chr (ch "{")].
(** [r'toast\s*\(\s*\{[^}]*\}'], the residual calls shown as examples. *)
Definition remaining_re : regex :=
  Cat [Lit (lit "toast"); ws_star; Chr (ch "("); ws_star; Chr (ch "{");
       Star true (Cls (none_of [ch "}"])); Chr (ch "}")].

(** The three patterns that clean the dependency lists. *)
(** [r',\s*toast\s*\]'] *)
Definition dep_last_re : regex :=
  Cat [Chr (ch ","); ws_star; Lit (lit "toast"); ws_star; Chr (ch "]")].
(** [r'\[\s*toast\s*,'] *)
Definition dep_first_re : regex :=
  Cat [Chr (ch "["); ws_star; Lit (lit "toast"); ws_star; Chr (ch ",")].
(** [r'\[\s*toast\s*\]'] *)
Definition dep_only_re : regex :=
  Cat [Chr (ch "["); ws_star; Lit (lit "toast"); ws_star; Chr (ch "]")].

(** ** replace_toast_multiline *)

(** [f'{m.group(1)}{m.group(2)}{m.group(1)}'] *)
Definition quoted (mt : re_match) : text := group 1 mt ++ group 2 mt ++ group 1 mt.
(** [f'`{m.group(1)}`'] *)
Definition templated (mt : re_match) : text := [backtick] ++ group 1 mt ++ [backtick].

(** Truth value of a Python [str] or [None]. *)
Definition truthy (d : option text) : bool :=
  match d with
  | Some (_ :: _) => true
  | _ => false
  end.

Definition replace_callback (mt : re_match) : text :=
  let inner := group 1 mt in
  let title_match := re_search title_re inner in
  let title_template_match := re_search title_template_re inner in
  let desc_match := re_search desc_re inner in
  let desc_template_match := re_search desc_template_re inner in
  let variant_match := re_search variant_re inner in
  let is_error := bool_decide (is_Some variant_match) in
  let title : option text :=
    match title_template_match, title_match with
    | Some tp, _ => Some (templated tp)
    | None, Some tm => Some (quoted tm)
    | None, None =>
        match desc_template_match, desc_match with
        | Some dt, _ => Some (templated dt)
        | None, Some dm => Some (quoted dm)
        | None, None => None
        end
    end in
  match title with
  | None => group 0 mt
  | Some title =>
      let description : option text :=
        match desc_template_match, title_template_match with
        | Some dt, None => Some (templated dt)
        | _, _ =>
            match desc_match, title_match with
            | Some dm, None => Some (quoted dm)
            | _, _ => None
            end
        end in
      if is_error then
        if truthy description then
          lit "showError(" ++ title ++ lit ", " ++ default [] description ++ lit ")"
        else
          lit "showError(" ++ title ++ lit ")"
      else
        if truthy description then
          lit "showSuccess(" ++ title ++ lit ", " ++ default [] description ++ lit ")"
        else
          lit "showToast(" ++ title ++ lit ", " ++ [dquote] ++ lit "success" ++ [dquote] ++ lit ")"
  end.

Definition replace_toast_multiline (content : text) : text :=
  re_sub_with pattern replace_callback content.

(** A double-quoted literal, for the examples. *)
Definition dq (s : text) : text := [dquote] ++ s ++ [dquote].

(** ** Files *)

(** Paths are texts; [FRONTEND_DIR / relative_path] is written out for the
    relative paths of the script. *)
Abbreviation path := (list N).

(** An instance of [Exception], with its [str(e)]. *)
Inductive exn : Type := Exn (msg : text).
Definition str_exn (e : exn) : text := match e with Exn msg => msg end.

(** What a path holds: a file that decodes to a text, or one whose reading
    raises. *)
Inductive node : Type :=
| File (content : text)
| Unreadable (e : exn).

(** The files under the working directory, and the paths whose writing
    raises. *)
Record fs : Type := MkFs {
  nodes : gmap (list N) node;
  write_raises : gmap (list N) exn
}.

Definition path_exists (f : fs) (p : path) : bool :=
  bool_decide (is_Some (nodes f !! p)).

Definition read_text (f : fs) (p : path) : exn + text :=
  match nodes f !! p with
  | Some (File content) => inr content
  | Some (Unreadable e) => inl e
  | None => inl (Exn (lit "[Errno 2] No such file or directory: '" ++ p ++ lit "'"))
  end.

(** A write that raises leaves the files as they were. *)
Definition write_text (f : fs) (p : path) (content : text) : exn + fs :=
  match write_raises f !! p with
  | Some e => inl e
  | None => inr (MkFs (<[p := File content]> (nodes f)) (write_raises f))
  end.

Definition FRONTEND_DIR : path := lit "src".
Definition DRY_RUN : bool := false.
Definition BACKUP : bool := true.

Definition FILES_TO_PROCESS : list path :=
  [ lit "pages/auth/ResetPassword.tsx";
    lit "pages/admin/AdminUsers.tsx";
    lit "pages/admin/AdminSettings.tsx";
    lit "pages/admin/AdminPermissions.tsx";
    lit "pages/admin/AdminAuditLogs.tsx";
    lit "components/tasks/CreateTaskDialog.tsx";
    lit "components/tasks/TaskDetailSheet.tsx";
    lit "components/tasks/TaskListView.tsx";
    lit "components/tasks/AITaskImproverDialog.tsx";
    lit "components/projects/AddMemberDialog.tsx";
    lit "components/projects/EditProjectDialog.tsx";
    lit "components/projects/InviteMemberModal.tsx";
    lit "components/projects/TeamMembersList.tsx";
    lit "components/sprints/AddTasksToSprintDialog.tsx";
    lit "pages/Sprints.tsx";
    lit "pages/Tasks.tsx";
    lit "pages/Backlog.tsx";
    lit "pages/Agents.tsx";
    lit "pages/Insights.tsx";
    lit "pages/ProjectDetail.tsx";
    lit "pages/ProjectMembers.tsx";
    lit "pages/Teams.tsx";
    lit "components/defects/CreateDefectDialog.tsx";
    lit "components/defects/DefectDetailSheet.tsx";
    lit "components/agents/ProjectInsightPanel.tsx";
    lit "components/agents/RiskDetectionPanel.tsx";
    lit "components/agents/SprintPlanningAssistant.tsx";
    lit "components/admin/EditUserDialog.tsx";
    lit "components/guards/PermissionGuard.tsx";
    lit "components/guards/RequireAdminGuard.tsx";
    lit "components/notifications/NotificationDropdown.tsx" ].

(** [file_path.with_suffix(file_path.suffix + '.bak')] *)
Definition backup_path (file_path : path) : path := file_path ++ lit ".bak".

Definition create_backup (f : fs) (file_path : path) : exn + fs :=
  if BACKUP && path_exists f file_path then
    match read_text f file_path with
    | inl e => inl e
    | inr content => write_text f (backup_path file_path) content
    end
  else inr f.

(** ** process_file *)

(** [str(n)] for a count. *)
Fixpoint digits (d : Decimal.uint) : text :=
  match d with
  | Decimal.Nil => []
  | Decimal.D0 d' => 48 :: digits d'
  | Decimal.D1 d' => 49 :: digits d'
  | Decimal.D2 d' => 50 :: digits d'
  | Decimal.D3 d' => 51 :: digits d'
  | Decimal.D4 d' => 52 :: digits d'
  | Decimal.D5 d' => 53 :: digits d'
  | Decimal.D6 d' => 54 :: digits d'
  | Decimal.D7 d' => 55 :: digits d'
  | Decimal.D8 d' => 56 :: digits d'
  | Decimal.D9 d' => 57 :: digits d'
  end.
Definition str_nat (n : nat) : text := digits (Nat.to_uint n).

(** The messages of [process_file]; the code points beyond ASCII are given by
    number (233 is the e with an acute accent). *)
Definition msg_not_found (file_path : path) : text :=
  lit "Fichier non trouv" ++ [233] ++ lit ": " ++ file_path.
Definition msg_remaining (toast_count_after : nat) : text :=
  [9888; 65039] ++ lit "  Il reste " ++ str_nat toast_count_after
  ++ lit " appel(s) toast({ - v" ++ [233] ++ lit "rification recommand" ++ [233] ++ lit "e".
Definition msg_example (i : nat) (snippet : text) : text :=
  lit "   Exemple " ++ str_nat i ++ lit ": " ++ snippet ++ lit "...".
Definition msg_no_change : text :=
  lit "Aucun changement n" ++ [233] ++ lit "cessaire".
Definition msg_error (e : exn) : text :=
  [10060] ++ lit " Erreur: " ++ str_exn e.

(** The loop over [enumerate(remaining_toasts, 1)]: the first three residual
    calls, each cut to 60 characters. *)
Fixpoint examples (i : nat) (ms : list re_match) : list text :=
  match ms with
  | [] => []
  | mt :: ms' =>
      (if Nat.leb i 3 then [msg_example i (firstn 60 (group 0 mt))] else [])
      ++ examples (S i) ms'
  end.

(** The text transformation of [process_file]: the call rewriting, then the
    three substitutions on the dependency lists. *)
Definition clean_deps (content : text) : text :=
  let content := re_sub dep_last_re (lit "]") content in
  let content := re_sub dep_first_re (lit "[") content in
  let content := re_sub dep_only_re (lit "[]") content in
  content.

Definition transform (content : text) : text :=
  clean_deps (replace_toast_multiline content).

(** [(changed, warnings, stats['toasts_replaced'])] *)
Abbreviation result := (bool * list text * Z)%type.

(** [process_file(file_path)], with the files it leaves.  Each [inl] below is
    an exception that the [except Exception] of the function turns into a
    result; [stats] is the dictionary the function mutates, so a failure
    after the count returns the count.  [exists()] itself is taken not to
    raise. *)
Definition process_file (f : fs) (file_path : path) : fs * result :=
  let stats := 0%Z in
  if negb (path_exists f file_path) then
    (f, (false, [msg_not_found file_path], stats))
  else
    match read_text f file_path with
    | inl e => (f, (false, [msg_error e], stats))
    | inr content =>
        let original_content := content in
        let toast_count_before := re_count toast_open_re content in
        let content := replace_toast_multiline content in
        let content := re_sub dep_last_re (lit "]") content in
        let content := re_sub dep_first_re (lit "[") content in
        let content := re_sub dep_only_re (lit "[]") content in
        let toast_count_after := re_count toast_open_re content in
        let stats := (Z.of_nat toast_count_before - Z.of_nat toast_count_after)%Z in
        let warnings :=
          if Nat.ltb 0 toast_count_after then
            [msg_remaining toast_count_after]
            ++ examples 1 (re_finditer remaining_re content)
          else [] in
        if bool_decide (content = original_content) then
          (f, (false, [msg_no_change], stats))
        else if negb DRY_RUN then
          match create_backup f file_path with
          | inl e => (f, (false, [msg_error e], stats))
          | inr f1 =>
              match write_text f1 file_path content with
              | inl e => (f1, (false, [msg_error e], stats))
              | inr f2 => (f2, (true, warnings, stats))
              end
          end
        else (f, (true, warnings, stats))
    end.

(** ** The file loop of main *)

(** [needle in hay] *)
Fixpoint contains (needle hay : text) : bool :=
  starts_with needle hay ||
  match hay with
  | [] => false
  | _ :: hay' => contains needle hay'
  end.

Record tally : Type := MkTally {
  modified_files : list path;
  files_with_warnings : list (path * list text);
  total_toasts_replaced : Z;
  skipped_files : list path;
  perfectly_migrated : list path
}.

Definition empty_tally : tally := MkTally [] [] 0%Z [] [].

(** One turn of [for relative_path in FILES_TO_PROCESS] in [main], without its
    prints: the five lists and the total that the loop keeps. *)
Definition main_step (st : fs * tally) (relative_path : path) : fs * tally :=
  let '(f, t) := st in
  let file_path := FRONTEND_DIR ++ lit "/" ++ relative_path in
  let '(f', (changed, warnings, stats)) := process_file f file_path in
  if negb (path_exists f' file_path) then
    (f', MkTally (modified_files t) (files_with_warnings t) (total_toasts_replaced t)
                 (skipped_files t ++ [relative_path]) (perfectly_migrated t))
  else if changed then
    let has_remaining := existsb (contains (lit "Il reste")) warnings in
    if has_remaining then
      (f', MkTally (modified_files t ++ [relative_path])
                   (files_with_warnings t ++ [(relative_path, warnings)])
                   (total_toasts_replaced t + stats)%Z
                   (skipped_files t) (perfectly_migrated t))
    else
      (f', MkTally (modified_files t ++ [relative_path])
                   (files_with_warnings t)
                   (total_toasts_replaced t + stats)%Z
                   (skipped_files t) (perfectly_migrated t ++ [relative_path]))
  else (f', t).

Definition main_loop (f : fs) (files : list path) : fs * tally :=
  fold_left main_step files (f, empty_tally).

(** ** update_app_tsx *)

(** [r?] *)
Definition Opt (r : regex) : regex := Alt r Eps.

(** [\s+] *)
Definition ws_plus : regex := Plus (Cls is_space).

(** [r'import\s*\{\s*Toaster\s*\}\s*from\s*["\']@/components/ui/toaster["\']\s*;?\s*\n?'] *)
Definition toaster_import_re : regex :=
  Cat [Lit (lit "import"); ws_star; Chr (ch "{"); ws_star; Lit (lit "Toaster"); ws_star;
       Chr (ch "}"); ws_star; Lit (lit "from"); ws_star;
       Cls (one_of [dquote; squote]); Lit (lit "@/components/ui/toaster");
       Cls (one_of [dquote; squote]);
       ws_star; Opt (Chr (ch ";")); ws_star; Opt (Chr newline)].

(** [r'import\s*\{\s*Toaster\s+as\s+Sonner\s*\}\s*from\s*["\']@/components/ui/sonner["\']\s*;?\s*\n?'] *)
Definition sonner_import_re : regex :=
  Cat [Lit (lit "import"); ws_star; Chr (ch "{"); ws_star; Lit (lit "Toaster"); ws_plus;
       Lit (lit "as"); ws_plus; Lit (lit "Sonner"); ws_star;
       Chr (ch "}"); ws_star; Lit (lit "from"); ws_star;
       Cls (one_of [dquote; squote]); Lit (lit "@/components/ui/sonner");
       Cls (one_of [dquote; squote]);
       ws_star; Opt (Chr (ch ";")); ws_star; Opt (Chr newline)].

(** [r'<Toaster\s*/>\s*\n?'] *)
Definition toaster_tag_re : regex :=
  Cat [Lit (lit "<Toaster"); ws_star; Lit (lit "/>"); ws_star; Opt (Chr newline)].

(** [r'<Sonner\s*/>\s*\n?'] *)
Definition sonner_tag_re : regex :=
  Cat [Lit (lit "<Sonner"); ws_star; Lit (lit "/>"); ws_star; Opt (Chr newline)].

(** The four substitutions of [update_app_tsx], each by the empty text. *)
Definition clean_app (content : text) : text :=
  let content := re_sub toaster_import_re [] content in
  let content := re_sub sonner_import_re [] content in
  let content := re_sub toaster_tag_re [] content in
  let content := re_sub sonner_tag_re [] content in
  content.

(** [FRONTEND_DIR / "App.tsx"] *)
Definition app_file : path := FRONTEND_DIR ++ lit "/" ++ lit "App.tsx".

(** [update_app_tsx()], with the files it leaves; its prints are left out. *)
Definition update_app_tsx (f : fs) : fs * bool :=
  if negb (path_exists f app_file) then (f, false)
  else
    match read_text f app_file with
    | inl e => (f, false)
    | inr content =>
        let original_content := content in
        let content := re_sub toaster_import_re [] content in
        let content := re_sub sonner_import_re [] content in
        let content := re_sub toaster_tag_re [] content in
        let content := re_sub sonner_tag_re [] content in
        if negb (bool_decide (content = original_content)) then
          if negb DRY_RUN then
            match create_backup f app_file with
            | inl e => (f, false)
            | inr f1 =>
                match write_text f1 app_file content with
                | inl e => (f1, false)
                | inr f2 => (f2, true)
                end
            end
          else (f, true)
        else (f, false)
    end.

(** ** main *)

(** [main()] without its prints: nothing when [FRONTEND_DIR] does not exist
    (the answer of [FRONTEND_DIR.exists()] is given), else the loop over
    [FILES_TO_PROCESS] and then [update_app_tsx]; the result is what the
    summary prints from, the lists of the loop and [app_updated]. *)
Definition main (frontend_dir_exists : bool) (f : fs) : fs * option (tally * bool) :=
  if negb frontend_dir_exists then (f, None)
  else
    let '(f1, t) := main_loop f FILES_TO_PROCESS in
    let '(f2, app_updated) := update_app_tsx f1 in
    (f2, Some (t, app_updated)).

(** * Vocabulary of the properties *)

(** What a successful match has read.
    [den r c w c'] : the pattern [r], entered with the groups [c], can read
    exactly [w] and leave the groups [c'].  Every success of [m] reads such a
    [w]; the order in which [m] tries the alternatives is not part of it. *)
Inductive den : regex -> caps -> text -> caps -> Prop :=
| den_eps c : den Eps c [] c
| den_chr a c : den (Chr a) c [a] c
| den_cls (p : char -> bool) x c : p x = true -> den (Cls p) c [x] c
| den_seq r1 r2 c w1 c1 w2 c2 :
    den r1 c w1 c1 -> den r2 c1 w2 c2 -> den (Seq r1 r2) c (w1 ++ w2) c2
| den_alt_l r1 r2 c w c1 : den r1 c w c1 -> den (Alt r1 r2) c w c1
| den_alt_r r1 r2 c w c1 : den r2 c w c1 -> den (Alt r1 r2) c w c1
| den_star_stop g r c : den (Star g r) c [] c
| den_star_more g r c w1 c1 w2 c2 :
    den r c w1 c1 -> w1 <> [] -> den (Star g r) c1 w2 c2 ->
    den (Star g r) c (w1 ++ w2) c2
| den_group i r c w c1 : den r c w c1 -> den (Group i r) c w ((i, w) :: c1)
| den_backref i c g : get_group i c = Some g -> den (Backref i) c g c.

(** The text a class does not reach: empty, or headed by a character outside
    of the class. *)
Definition stops (p : char -> bool) (s : text) : Prop :=
  match s with
  | [] => True
  | x :: _ => p x = false
  end.

(** The first character a pattern insists on. *)
Fixpoint first_is (r : regex) (a : char) : bool :=
  match r with
  | Chr b => b =? a
  | Seq r1 _ => first_is r1 a
  | Group _ r1 => first_is r1 a
  | _ => false
  end.

(** No match of [r] starts inside [a] when [b] follows it. *)
Definition quiet (r : regex) (a b : text) : Prop :=
  forall a1 x a2, a = a1 ++ x :: a2 -> match_here r (x :: a2 ++ b) = None.

(** Whatever [r] reads holds the text [l]. *)
Definition reads (l : text) (r : regex) : Prop :=
  forall c w c', den r c w c' -> contains l w = true.

(** [toast({ title: "X", meta: { a: 1 } })] *)
Definition call_nested : text :=
  lit "toast({ title: " ++ dq (lit "X") ++ lit ", meta: { a: 1 } })".

(** [toast({ description: "Saved" })] *)
Definition call_description_only : text :=
  lit "toast({ description: " ++ dq (lit "Saved") ++ lit " })".

(** [toast({ title: "Oops", description: "Bad", variant: "destructive" })] *)
Definition call_destructive : text :=
  lit "toast({ title: " ++ dq (lit "Oops") ++ lit ", description: " ++ dq (lit "Bad")
  ++ lit ", variant: " ++ dq (lit "destructive") ++ lit " })".

(** [toast({ title: `Hello ${name}` })] *)
Definition call_interpolated : text := lit "toast({ title: `Hello ${name}` })".

(** [toast({ title: "Done" })] *)
Definition call_done : text := lit "toast({ title: " ++ dq (lit "Done") ++ lit " })".

(** Nothing can be extracted from the body of a match: none of the four
    searches of [replace_callback] for a title or a description succeeds. *)
Definition unextractable (mt : re_match) : Prop :=
  re_search title_re (group 1 mt) = None
  /\ re_search title_template_re (group 1 mt) = None
  /\ re_search desc_re (group 1 mt) = None
  /\ re_search desc_template_re (group 1 mt) = None.



(** One file [src/a.tsx] with the given text, every write allowed. *)
Definition one_file (content : text) : fs := MkFs {[ lit "src/a.tsx" := File content ]} ∅.

(** [stats['toasts_replaced']] once the text has been transformed. *)
Definition replaced (content : text) : Z :=
  (Z.of_nat (re_count toast_open_re content)
   - Z.of_nat (re_count toast_open_re (transform content)))%Z.

(** The files once the backup of [p] has been written. *)
Definition with_backup (f : fs) (p : path) (content : text) : fs :=
  MkFs (<[backup_path p := File content]> (nodes f)) (write_raises f).

Definition skip (t : tally) (relative_path : path) : tally :=
  MkTally (modified_files t) (files_with_warnings t) (total_toasts_replaced t)
          (skipped_files t ++ [relative_path]) (perfectly_migrated t).


Definition a_tsx : path := lit "src/a.tsx".
Definition denied : exn := Exn (lit "[Errno 13] Permission denied").
Definition fs_read_only : fs := MkFs {[ a_tsx := File call_done ]} {[ a_tsx := denied ]}.

(** A literal as it stands in the source text: a template literal between
    backticks, or a string between two quotes of the same kind. *)
Definition literal (t : text) : Prop :=
  (exists v, t = [backtick] ++ v ++ [backtick])
  \/ (exists q v, (q = dquote \/ q = squote) /\ t = [q] ++ v ++ [q]).


(** [toast({ variant: "destructive" })] *)
Definition call_no_fields : text :=
  lit "toast({ variant: " ++ dq (lit "destructive") ++ lit " })".

(** [toast({ deps: [toast] })] *)
Definition call_with_list : text := lit "toast({ deps: [toast] })".

Definition residual_text : text :=
  lit "toast({ variant: 'destructive' }); useEffect(f, [a, toast])".
Definition match_residual : re_match :=
  MkMatch (lit "toast({ variant: 'destructive' })") [(1%nat, lit " variant: 'destructive' ")].

(** The text of a string before its first bare quote: ordinary characters
    and pairs of a backslash and the character it escapes. *)
Inductive unquoted : text -> Prop :=
| unq_nil : unquoted []
| unq_plain x v :
    none_of [dquote; squote; bslash] x = true -> unquoted v -> unquoted (x :: v)
| unq_esc y v : unquoted v -> unquoted (bslash :: y :: v).

Definition is_quote (q : char) : Prop := q = dquote \/ q = squote.

(** One step of the value of a quoted string: a character other than a quote
    and a backslash, or a backslash and the character after it. *)
Definition value_step : regex :=
  Alt (Cls (none_of [dquote; squote; bslash])) (Seq (Chr bslash) (Cls dot)).

Abbreviation spaces w := (Forall (fun x : N => is_space x = true) w).

(** [toast a ( b { body } c )], with white space [a], [b], [c]. *)
Definition call (a b body c : text) : text :=
  lit "toast" ++ a ++ [ch "("] ++ b ++ [ch "{"] ++ body ++ [ch "}"] ++ c ++ [ch ")"].

(** What follows the key of a field: white space, a string between two
    quotes [q] with a quote [o] inside it, white space. *)
Definition tail_of_field (w w1 v1 v2 : text) (q o : char) : text :=
  w ++ [q] ++ v1 ++ [o] ++ (v2 ++ [q] ++ w1).

(** The characters of the words of a message: no quote, backslash or
    backtick, no closing brace, no colon. *)
Definition word_char (x : char) : bool :=
  none_of [dquote; squote; bslash; backtick; ch "}"; ch ":"] x.


(** The shape of the three patterns: an opening character, white space, the
    word, white space, a closing character. *)
Definition dep_shape (c1 c2 : char) : regex :=
  Seq (Chr c1) (Seq ws_star (Seq (Lit (lit "toast")) (Seq ws_star (Chr c2)))).

(** The files once [process_file] has written the backup of [p] and then the
    transformed text. *)
Definition written (f : fs) (p : path) (content : text) : fs :=
  MkFs (<[p := File (transform content)]> (<[backup_path p := File content]> (nodes f)))
       (write_raises f).

(** The warnings of [process_file] for a text. *)
Definition warnings_of (content : text) : list text :=
  if Nat.ltb 0 (re_count toast_open_re (transform content)) then
    [msg_remaining (re_count toast_open_re (transform content))]
    ++ examples 1 (re_finditer remaining_re (transform content))
  else [].

(** A literal that stands in the body of a match. *)
Definition in_body (mt : re_match) (t : text) : Prop :=
  literal t /\ exists before after, group 1 mt = before ++ t ++ after.

(** The ending of the patterns of [update_app_tsx]: white space, an optional
    character, white space, an optional line feed. *)
Definition app_ending (c : char) : regex :=
  Seq ws_star (Seq (Opt (Chr c)) (Seq ws_star (Opt (Chr newline)))).

(** A file system with [App.tsx] alone. *)
Definition app_only (content : text) : fs := MkFs {[ app_file := File content ]} ∅.

(** An import of [Toaster] in any layout: white space [w1] to [w5] between
    its words, the quotes [q1] and [q2] around the module, and [e] after it. *)
Definition toaster_import (w1 w2 w3 w4 w5 : text) (q1 q2 : char) (e : text) : text :=
  lit "import" ++ w1 ++ [ch "{"] ++ w2 ++ lit "Toaster" ++ w3 ++ [ch "}"] ++ w4
  ++ lit "from" ++ w5 ++ [q1] ++ lit "@/components/ui/toaster" ++ [q2] ++ e.

(** What may stand between the module of an import and the text [rest] after
    it: white space alone, when [rest] does not start with a semicolon, or
    white space, a semicolon and white space. *)
Inductive import_end (rest : text) : text -> Prop :=
  | end_bare (w : text) :
      spaces w -> head rest <> Some (ch ";") -> import_end rest w
  | end_semi (w w' : text) :
      spaces w -> spaces w' -> import_end rest (w ++ [ch ";"] ++ w').

(** A tag that closes itself: its opening, white space [w1], the closing, and
    white space [w2] after it. *)
Definition self_closed (opening w1 w2 : text) : text := opening ++ w1 ++ lit "/>" ++ w2.

(** The text of a string made of the characters of words and of quotes that
    a backslash escapes. *)
Inductive escaped_words : text -> Prop :=
  | esc_nil : escaped_words []
  | esc_word (x : char) (v : text) :
      word_char x = true -> escaped_words v -> escaped_words (x :: v)
  | esc_quote (o : char) (v : text) :
      is_quote o -> escaped_words v -> escaped_words (bslash :: o :: v).

(** A body whose only field is a title: white space, the key, white space,
    the string [v] between two quotes [q], white space. *)
Definition title_body (w0 w v w1 : text) (q : char) : text :=
  w0 ++ lit "title:" ++ w ++ [q] ++ v ++ [q] ++ w1.

(** * Properties of the matcher *)

Lemma starts_with_split (p s : text) :
  starts_with p s = true -> s = p ++ skipn (length p) s.
Proof.
  revert s. induction p as [|a p IH]; intros [|b s] H; simpl in *; try done.
  apply andb_true_iff in H as [Hab Hps]. apply N.eqb_eq in Hab. subst b.
  f_equal. by apply IH.
Qed.

Lemma starts_with_app (p s : text) : starts_with p (p ++ s) = true.
Proof. induction p as [|a p IH]; simpl; [done|]. by rewrite N.eqb_refl. Qed.

Lemma firstn_consumed (w s : text) : firstn (length (w ++ s) - length s) (w ++ s) = w.
Proof.
  rewrite length_app. replace (length w + length s - length s)%nat with (length w) by lia.
  by rewrite take_app_length.
Qed.

Lemma m_sound (r : regex) : forall (s : text) (c : caps) (k : cont) (o : text * caps),
  m r s c k = Some o ->
  exists w s' c', s = w ++ s' /\ den r c w c' /\ k s' c' = Some o.
Proof.
  induction r as [|a|p|r1 IH1 r2 IH2|r1 IH1 r2 IH2|g r IH|i r IH|i]; intros s c k o H; simpl in H.
  - exists [], s, c. repeat split; [constructor|done].
  - destruct s as [|x s]; [done|]. destruct (x =? a) eqn:E; [|done].
    apply N.eqb_eq in E. subst x. exists [a], s, c. repeat split; [constructor|done].
  - destruct s as [|x s]; [done|]. destruct (p x) eqn:E; [|done].
    exists [x], s, c. repeat split; [by constructor|done].
  - apply IH1 in H as (w1 & s1 & c1 & -> & D1 & H).
    apply IH2 in H as (w2 & s2 & c2 & -> & D2 & H).
    exists (w1 ++ w2), s2, c2. rewrite <- app_assoc. repeat split; [by econstructor|done].
  - destruct (m r1 s c k) as [o1|] eqn:E.
    + injection H as ->. apply IH1 in E as (w & s' & c' & -> & D & E).
      exists w, s', c'. repeat split; [by apply den_alt_l|done].
    + apply IH2 in H as (w & s' & c' & -> & D & H).
      exists w, s', c'. repeat split; [by apply den_alt_r|done].
  - remember (length s) as n eqn:Hn. clear Hn. revert s c H.
    induction n as [|n IHn]; intros s c H; simpl in H.
    + exists [], s, c. repeat split; [constructor|done].
    + assert (Hagain :
        m r s c (fun s' c' => if Nat.ltb (length s') (length s)
                              then star_loop (m r) g k n s' c' else None) = Some o ->
        exists w s' c', s = w ++ s' /\ den (Star g r) c w c' /\ k s' c' = Some o).
      { intros E. apply IH in E as (w1 & s1 & c1 & -> & D1 & E).
        destruct (Nat.ltb (length s1) (length (w1 ++ s1))) eqn:L; [|done].
        apply Nat.ltb_lt in L. rewrite length_app in L.
        apply IHn in E as (w2 & s2 & c2 & -> & D2 & E).
        exists (w1 ++ w2), s2, c2. rewrite <- app_assoc. repeat split; [|done].
        eapply den_star_more; eauto. intros ->. simpl in L. lia. }
      destruct g.
      * match type of H with match ?a with _ => _ end = _ => destruct a as [o1|] eqn:E1 end.
        -- injection H as ->. by apply Hagain.
        -- exists [], s, c. repeat split; [constructor|done].
      * destruct (k s c) as [o1|] eqn:E1.
        -- injection H as ->. exists [], s, c. repeat split; [constructor|done].
        -- by apply Hagain.
  - apply IH in H as (w & s' & c' & -> & D & H).
    rewrite firstn_consumed in H.
    exists w, s', ((i, w) :: c'). repeat split; [by constructor|done].
  - destruct (get_group i c) as [g|] eqn:G; [|done].
    destruct (starts_with g s) eqn:P; [|done].
    exists g, (skipn (length g) s), c. repeat split; [by apply starts_with_split|by constructor|done].
Qed.

Lemma match_here_sound (r : regex) (s : text) (mt : re_match) (rest : text) :
  match_here r s = Some (mt, rest) ->
  s = m_all mt ++ rest /\ den r [] (m_all mt) (m_caps mt).
Proof.
  unfold match_here. intros H.
  destruct (m r s [] (fun s' c' => Some (s', c'))) as [[s' c']|] eqn:E; [|done].
  injection H as <- <-. apply m_sound in E as (w & s1 & c1 & -> & D & E).
  injection E as <- <-. simpl. by rewrite firstn_consumed.
Qed.

Lemma re_search_sound (r : regex) (s : text) (mt : re_match) :
  re_search r s = Some mt ->
  exists before after, s = before ++ m_all mt ++ after /\ den r [] (m_all mt) (m_caps mt).
Proof.
  induction s as [|x s IH]; simpl; intros H.
  - destruct (match_here r []) as [[mt' rest]|] eqn:E; [|done].
    injection H as ->. apply match_here_sound in E as [E D]. by exists [], rest.
  - destruct (match_here r (x :: s)) as [[mt' rest]|] eqn:E.
    + injection H as ->. apply match_here_sound in E as [E D]. by exists [], rest.
    + apply IH in H as (b & a & -> & D). by exists (x :: b), a.
Qed.

(** ** Stepping the matcher *)

Lemma m_seq r1 r2 s c k : m (Seq r1 r2) s c k = m r1 s c (fun s' c' => m r2 s' c' k).
Proof. reflexivity. Qed.

Lemma m_chr_hit a s c k : m (Chr a) (a :: s) c k = k s c.
Proof. simpl. by rewrite N.eqb_refl. Qed.

Lemma m_cls_hit (p : char -> bool) x s c k : p x = true -> m (Cls p) (x :: s) c k = k s c.
Proof. simpl. by intros ->. Qed.

Lemma m_group i r s c k :
  m (Group i r) s c k
  = m r s c (fun s' c' => k s' ((i, firstn (length s - length s') s) :: c')).
Proof. reflexivity. Qed.

Lemma m_lit (l : text) : forall s c k,
  m (Lit l) s c k = if starts_with l s then k (skipn (length l) s) c else None.
Proof.
  induction l as [|a l IH]; intros s c k; simpl; [done|].
  destruct s as [|x s]; [done|]. rewrite (N.eqb_sym x a).
  destruct (a =? x); simpl; [apply IH|done].
Qed.

Lemma m_lit_hit (l : text) s c k : m (Lit l) (l ++ s) c k = k s c.
Proof. by rewrite m_lit, starts_with_app, drop_app_length. Qed.

(** A repetition of a character class, one character at a time. *)
Lemma m_star_cls_nil g p c k : m (Star g (Cls p)) [] c k = k [] c.
Proof. reflexivity. Qed.

Lemma m_star_cls_stop g p x s c k :
  p x = false -> m (Star g (Cls p)) (x :: s) c k = k (x :: s) c.
Proof. intros H. simpl. rewrite H. by destruct g, (k (x :: s) c). Qed.

Lemma m_star_cls_greedy p x s c k :
  p x = true ->
  m (Star true (Cls p)) (x :: s) c k
  = match m (Star true (Cls p)) s c k with
    | Some o => Some o
    | None => k (x :: s) c
    end.
Proof.
  intros H. simpl. rewrite H.
  assert (L : Nat.ltb (length s) (S (length s)) = true) by (apply Nat.ltb_lt; lia).
  by rewrite L.
Qed.

(** A greedy class repetition reads the whole run [w] when what follows lets
    the match go on. *)
Lemma m_star_cls_run p w s c k o :
  Forall (fun x => p x = true) w -> stops p s -> k s c = Some o ->
  m (Star true (Cls p)) (w ++ s) c k = Some o.
Proof.
  intros Hw Hs Hk. induction Hw as [|x w Hx Hw IH]; simpl app.
  - destruct s as [|y s]; [done|]. by rewrite m_star_cls_stop.
  - by rewrite m_star_cls_greedy, IH.
Qed.

(** It fails when the match can go on after no part of the run. *)
Lemma m_star_cls_fail p w s c k :
  Forall (fun x => p x = true) w -> stops p s ->
  (forall w', suffix w' w -> k (w' ++ s) c = None) ->
  m (Star true (Cls p)) (w ++ s) c k = None.
Proof.
  intros Hw Hs Hk. induction Hw as [|x w Hx Hw IH]; simpl app.
  - specialize (Hk [] (suffix_nil _)). simpl in Hk.
    destruct s as [|y s]; [done|]. by rewrite m_star_cls_stop.
  - rewrite m_star_cls_greedy, IH by (try done; intros w' Hw'; apply Hk; by apply suffix_cons_r).
    apply (Hk (x :: w)). done.
Qed.

Lemma first_is_cons r a : first_is r a = true ->
  forall x s c k, x <> a -> m r (x :: s) c k = None.
Proof.
  induction r as [|b|p|r1 IH1 r2 IH2|r1 IH1 r2 IH2|g r IH|i r IH|i];
    simpl; intros H x s c k Hx; try done.
  - apply N.eqb_eq in H. subst b. by apply N.eqb_neq in Hx as ->.
  - by apply IH1.
  - by apply IH.
Qed.


Lemma match_here_intro r w rest c :
  m r (w ++ rest) [] (fun s' c' => Some (s', c')) = Some (rest, c) ->
  match_here r (w ++ rest) = Some (MkMatch w c, rest).
Proof. unfold match_here. intros ->. by rewrite firstn_consumed. Qed.

Lemma match_here_none r s :
  m r s [] (fun s' c' => Some (s', c')) = None -> match_here r s = None.
Proof. unfold match_here. by intros ->. Qed.

Lemma match_here_first r a x s : first_is r a = true -> x <> a -> match_here r (x :: s) = None.
Proof. intros H Hx. apply match_here_none. by eapply first_is_cons. Qed.


(** ** Scanning a text *)

Lemma quiet_nil r b : quiet r [] b.
Proof. intros [|] ? ? ?; done. Qed.

Lemma quiet_cons r x a b :
  match_here r (x :: a ++ b) = None -> quiet r a b -> quiet r (x :: a) b.
Proof.
  intros H Q [|y a1] z a2 E; simplify_eq/=; [done|]. by eapply Q.
Qed.

Lemma quiet_tail r x a b : quiet r (x :: a) b -> quiet r a b.
Proof. intros Q a1 z a2 ->. by apply (Q (x :: a1) z a2). Qed.

Lemma quiet_head r x a b : quiet r (x :: a) b -> match_here r (x :: a ++ b) = None.
Proof. intros Q. by apply (Q [] x a). Qed.


Lemma quiet_first r c0 a b :
  first_is r c0 = true -> Forall (fun x => x <> c0) a -> quiet r a b.
Proof.
  intros H Ha. induction Ha as [|x a Hx Ha IH]; [apply quiet_nil|].
  apply quiet_cons; [by eapply match_here_first|done].
Qed.

Lemma scan_skip r n : forall s, (n <= length s)%nat -> scan r n s = scan r O (skipn n s).
Proof.
  induction n as [|n IH]; intros s Hn; [done|].
  destruct s as [|x s]; simpl in *; [lia|]. apply IH. lia.
Qed.

Lemma scan_hit r s mt rest :
  match_here r s = Some (mt, rest) -> m_all mt <> [] ->
  scan r O s = Hit mt :: scan r O rest.
Proof.
  intros H Hne. destruct (match_here_sound _ _ _ _ H) as [E _].
  destruct (m_all mt) as [|y w] eqn:Ew; [done|]. subst s. simpl in *.
  rewrite H, Ew. simpl.
  f_equal. rewrite scan_skip by (rewrite length_app; lia).
  by rewrite drop_app_length.
Qed.

Lemma scan_miss r x s :
  match_here r (x :: s) = None -> scan r O (x :: s) = Keep x :: scan r O s.
Proof. simpl. by intros ->. Qed.

Lemma scan_nil r : match_here r [] = None -> scan r O [] = [].
Proof. simpl. by intros ->. Qed.

Lemma scan_quiet r a b : quiet r a b -> scan r O (a ++ b) = map Keep a ++ scan r O b.
Proof.
  induction a as [|x a IH]; intros Q; [done|].
  simpl app. rewrite scan_miss by (by apply quiet_head).
  simpl. f_equal. apply IH. by eapply quiet_tail.
Qed.

Lemma re_search_miss r x s :
  match_here r (x :: s) = None -> re_search r (x :: s) = re_search r s.
Proof. simpl. by intros ->. Qed.

Lemma re_search_hit r s mt rest :
  match_here r s = Some (mt, rest) -> re_search r s = Some mt.
Proof. destruct s; simpl; by intros ->. Qed.

Lemma re_search_nil r : match_here r [] = None -> re_search r [] = None.
Proof. simpl. by intros ->. Qed.

Lemma re_search_quiet r a b : quiet r a b -> re_search r (a ++ b) = re_search r b.
Proof.
  induction a as [|x a IH]; intros Q; [done|].
  simpl app. rewrite re_search_miss by (by apply quiet_head).
  apply IH. by eapply quiet_tail.
Qed.

(** [re.sub] along the pieces of a text. *)
Lemma re_sub_with_hit r f s mt rest :
  match_here r s = Some (mt, rest) -> m_all mt <> [] ->
  re_sub_with r f s = f mt ++ re_sub_with r f rest.
Proof. intros H Hne. unfold re_sub_with. by rewrite (scan_hit _ _ _ _ H Hne). Qed.

Lemma re_sub_with_quiet r f a b :
  quiet r a b -> re_sub_with r f (a ++ b) = a ++ re_sub_with r f b.
Proof.
  intros Q. unfold re_sub_with. rewrite (scan_quiet _ _ _ Q), map_app, concat_app.
  f_equal. rewrite map_map. clear Q. induction a as [|x a IH]; simpl; [done|by rewrite IH].
Qed.

Lemma re_sub_with_nil r f : match_here r [] = None -> re_sub_with r f [] = [].
Proof. intros H. unfold re_sub_with. by rewrite scan_nil. Qed.

Lemma re_sub_with_all_quiet r f a :
  quiet r a [] -> match_here r [] = None -> re_sub_with r f a = a.
Proof.
  intros Q H. rewrite <- (app_nil_r a) at 1.
  by rewrite re_sub_with_quiet, re_sub_with_nil, app_nil_r.
Qed.

Lemma re_finditer_all_quiet r a :
  quiet r a [] -> match_here r [] = None -> re_finditer r a = [].
Proof.
  intros Q H. unfold re_finditer. rewrite <- (app_nil_r a).
  rewrite scan_quiet, scan_nil, app_nil_r by done.
  clear. induction a as [|x a IH]; simpl; done.
Qed.

(** The pieces of a scan, each match standing for its own text, are the
    text again. *)
Lemma scan_reconstruct r : forall s k, (k <= length s)%nat ->
  concat (map (fun p => match p with Hit mt => m_all mt | Keep c => [c] end) (scan r k s))
  = skipn k s.
Proof.
  induction s as [|x s IH]; intros k Hk.
  - destruct k; [|simpl in Hk; lia]. simpl.
    destruct (match_here r []) as [[mt rest]|] eqn:E; [|done].
    apply match_here_sound in E as [E _]. symmetry in E. apply app_eq_nil in E as [E _].
    rewrite E. simpl. by rewrite E.
  - destruct k as [|k]; [|simpl; apply IH; simpl in Hk; lia].
    simpl. destruct (match_here r (x :: s)) as [[mt rest]|] eqn:E.
    + apply match_here_sound in E as [E _]. destruct (m_all mt) as [|y w] eqn:Em; simpl.
      * rewrite Em. simpl. f_equal. apply (IH O). lia.
      * rewrite Em. simpl in E. injection E as <- ->. simpl. f_equal.
        rewrite IH by (rewrite length_app; lia).
        by rewrite drop_app_length.
    + simpl. f_equal. apply (IH O). lia.
Qed.

(** A substitution whose replacement of every match is the match itself
    gives the text back. *)
Lemma re_sub_with_fixed r f s :
  (forall mt, In mt (re_finditer r s) -> f mt = m_all mt) -> re_sub_with r f s = s.
Proof.
  intros H. rewrite <- (scan_reconstruct r s O) at 2 by lia.
  unfold re_sub_with. f_equal. unfold re_finditer in H. revert H.
  generalize (scan r O s). intros l H. induction l as [|[c|mt] l IH]; simpl in *; [done| |].
  - f_equal. by apply IH.
  - f_equal; [apply H; by left|]. apply IH. intros mt' Hmt'. apply H. by right.
Qed.

Lemma re_search_none_finditer r s : re_search r s = None -> re_finditer r s = [].
Proof.
  unfold re_finditer. induction s as [|x s IH]; simpl; intros H.
  - by destruct (match_here r []) as [[? ?]|].
  - destruct (match_here r (x :: s)) as [[? ?]|]; [done|]. simpl. by apply IH.
Qed.

Lemma re_search_none_sub r f s : re_search r s = None -> re_sub_with r f s = s.
Proof.
  intros H. apply re_sub_with_fixed. by rewrite (re_search_none_finditer _ _ H).
Qed.

(** ** What the patterns of the script read *)

Lemma den_seq_inv r1 r2 c w c2 :
  den (Seq r1 r2) c w c2 ->
  exists w1 c1 w2, w = w1 ++ w2 /\ den r1 c w1 c1 /\ den r2 c1 w2 c2.
Proof. intros H. inversion H; subst. eauto 6. Qed.

Lemma den_chr_inv a c w c' : den (Chr a) c w c' -> w = [a] /\ c' = c.
Proof. intros H. by inversion H. Qed.

Lemma den_cls_inv p c w c' : den (Cls p) c w c' -> exists x, w = [x] /\ p x = true /\ c' = c.
Proof. intros H. inversion H; subst. eauto. Qed.

Lemma den_group_inv i r c w c' :
  den (Group i r) c w c' -> exists c1, den r c w c1 /\ c' = (i, w) :: c1.
Proof. intros H. inversion H; subst. eauto. Qed.

Lemma den_backref_inv i c w c' : den (Backref i) c w c' -> get_group i c = Some w /\ c' = c.
Proof. intros H. by inversion H. Qed.

Lemma den_alt_inv r1 r2 c w c' : den (Alt r1 r2) c w c' -> den r1 c w c' \/ den r2 c w c'.
Proof. intros H. inversion H; subst; eauto. Qed.

Lemma den_lit (l : text) : forall c w c', den (Lit l) c w c' -> w = l /\ c' = c.
Proof.
  induction l as [|a l IH]; intros c w c' H; simpl in H.
  - by inversion H.
  - apply den_seq_inv in H as (w1 & c1 & w2 & -> & H1 & H2).
    apply den_chr_inv in H1 as [-> ->]. apply IH in H2 as [-> ->]. done.
Qed.

Lemma den_star_cls g p c w c' :
  den (Star g (Cls p)) c w c' -> Forall (fun x => p x = true) w /\ c' = c.
Proof.
  remember (Star g (Cls p)) as r eqn:Hr. intros H.
  induction H as [| | | | | | |? ? ? w1 c1 w2 c2 H1 _ Hne H2 IH2| |]; try done.
  injection Hr as -> ->. destruct (IH2 eq_refl) as [Hw ->].
  inversion H1; subst. split; [by constructor|done].
Qed.

Lemma contains_here l s : starts_with l s = true -> contains l s = true.
Proof. destruct s; simpl; by intros ->. Qed.

Lemma contains_app_r l a b : contains l b = true -> contains l (a ++ b) = true.
Proof.
  intros H. induction a as [|x a IH]; [done|].
  simpl. rewrite IH. apply orb_true_r.
Qed.

Lemma starts_with_app_l l a b : starts_with l a = true -> starts_with l (a ++ b) = true.
Proof.
  revert a. induction l as [|x l IH]; intros [|y a] H; simpl in *; try done.
  apply andb_true_iff in H as [-> H]. by apply IH.
Qed.

Lemma contains_app_l l a b : contains l a = true -> contains l (a ++ b) = true.
Proof.
  induction a as [|x a IH]; simpl; intros H.
  - rewrite orb_false_r in H. destruct l; [|done]. by destruct b.
  - apply orb_true_iff in H as [H|H].
    + apply (starts_with_app_l _ _ b) in H. simpl in H. by rewrite H.
    + rewrite IH by done. apply orb_true_r.
Qed.

Lemma contains_mid l a b : contains l (a ++ l ++ b) = true.
Proof. apply contains_app_r, contains_here, starts_with_app. Qed.

Ltac den_seq H :=
  let w1 := fresh "w" in let w2 := fresh "w" in let c1 := fresh "c" in
  let H1 := fresh "D" in let H2 := fresh "D" in
  apply den_seq_inv in H as (w1 & c1 & w2 & -> & H1 & H2).

Lemma reads_seq_l l r1 r2 : reads l r1 -> reads l (Seq r1 r2).
Proof. intros H c w c' D. den_seq D. apply contains_app_l. by eapply H. Qed.

Lemma reads_seq_r l r1 r2 : reads l r2 -> reads l (Seq r1 r2).
Proof. intros H c w c' D. den_seq D. apply contains_app_r. by eapply H. Qed.

Lemma reads_lit l : reads l (Lit l).
Proof.
  intros c w c' D. apply den_lit in D as [-> _]. apply contains_here.
  rewrite <- (app_nil_r l) at 2. apply starts_with_app.
Qed.


(** The patterns that rewrite a file all read the word [toast]. *)
Lemma pattern_reads_toast : reads (lit "toast") pattern.
Proof. apply reads_seq_l, reads_lit. Qed.

Lemma toast_open_reads_toast : reads (lit "toast") toast_open_re.
Proof. apply reads_seq_l, reads_lit. Qed.

Lemma dep_last_reads_toast : reads (lit "toast") dep_last_re.
Proof. apply reads_seq_r, reads_seq_r, reads_seq_l, reads_lit. Qed.

Lemma dep_first_reads_toast : reads (lit "toast") dep_first_re.
Proof. apply reads_seq_r, reads_seq_r, reads_seq_l, reads_lit. Qed.

Lemma dep_only_reads_toast : reads (lit "toast") dep_only_re.
Proof. apply reads_seq_r, reads_seq_r, reads_seq_l, reads_lit. Qed.

(** A text without [l] holds no match of a pattern that reads [l]. *)
Lemma reads_no_match l r s : reads l r -> contains l s = false -> match_here r s = None.
Proof.
  intros Hr Hs. destruct (match_here r s) as [[mt rest]|] eqn:E; [|done].
  apply match_here_sound in E as [-> D]. apply Hr in D.
  by rewrite (contains_app_l _ _ rest D) in Hs.
Qed.

Lemma reads_quiet l r s b : reads l r -> contains l (s ++ b) = false -> quiet r s b.
Proof.
  intros Hr Hs a1 x a2 ->. apply (reads_no_match l); [done|].
  destruct (contains l (x :: a2 ++ b)) eqn:E; [|done].
  rewrite <- app_assoc in Hs. simpl in Hs. by rewrite (contains_app_r _ a1 _ E) in Hs.
Qed.

Lemma contains_app_false_r l a b : contains l (a ++ b) = false -> contains l b = false.
Proof.
  intros H. destruct (contains l b) eqn:E; [|done]. by rewrite (contains_app_r _ a _ E) in H.
Qed.

Lemma reads_search l r s : reads l r -> contains l s = false -> re_search r s = None.
Proof.
  intros Hr Hs. rewrite <- (app_nil_r s). rewrite re_search_quiet.
  - apply re_search_nil. apply (reads_no_match l); [done|].
    rewrite <- (app_nil_r s) in Hs. by apply contains_app_false_r in Hs.
  - apply (reads_quiet l); [done|]. by rewrite app_nil_r.
Qed.

Lemma reads_sub l r f s : reads l r -> contains l s = false -> re_sub_with r f s = s.
Proof.
  intros Hr Hs. apply re_sub_with_all_quiet.
  - apply (reads_quiet l); [done|]. by rewrite app_nil_r.
  - apply (reads_no_match l); [done|].
    rewrite <- (app_nil_r s) in Hs. by apply contains_app_false_r in Hs.
Qed.

Lemma reads_finditer l r s : reads l r -> contains l s = false -> re_finditer r s = [].
Proof.
  intros Hr Hs. apply re_finditer_all_quiet.
  - apply (reads_quiet l); [done|]. by rewrite app_nil_r.
  - apply (reads_no_match l); [done|].
    rewrite <- (app_nil_r s) in Hs. by apply contains_app_false_r in Hs.
Qed.

Lemma no_toast_transform s : contains (lit "toast") s = false -> transform s = s.
Proof.
  intros Hs. unfold transform, clean_deps, replace_toast_multiline, re_sub.
  rewrite (reads_sub _ pattern) by (done || apply pattern_reads_toast).
  rewrite (reads_sub _ dep_last_re) by (done || apply dep_last_reads_toast).
  rewrite (reads_sub _ dep_first_re) by (done || apply dep_first_reads_toast).
  by rewrite (reads_sub _ dep_only_re) by (done || apply dep_only_reads_toast).
Qed.

(** * The script on the calls of its specification *)

(** C1, as the code has it: the call with a nested object literal,
    [toast({ title: "X", meta: { a: 1 } })], is not delimited up to its
    matching closing brace.  The body class stops at the first inner closing
    brace, a closing parenthesis does not follow it, so the pattern matches
    nowhere in the call and the call is left as it is. *)
Theorem nested_call_is_not_matched :
  re_search pattern call_nested = None
  /\ re_finditer pattern call_nested = []
  /\ replace_toast_multiline call_nested = call_nested.
Proof. vm_compute. done. Qed.

(** What a match of the pattern reads: the word, an opening parenthesis and
    an opening brace with white space between them, a non-empty body without
    a closing brace, a closing brace and a closing parenthesis. *)
Lemma den_pattern c0 w c :
  den pattern c0 w c ->
  exists w1 w2 body w3,
    w = lit "toast" ++ w1 ++ [ch "("] ++ w2 ++ [ch "{"] ++ body ++ [ch "}"] ++ w3 ++ [ch ")"]
    /\ c = (1%nat, body) :: c0
    /\ Forall (fun x => is_space x = true) w1
    /\ Forall (fun x => is_space x = true) w2
    /\ Forall (fun x => is_space x = true) w3
    /\ body <> []
    /\ Forall (fun x => x <> ch "}") body.
Proof.
  intros D. unfold pattern in D. cbn [Cat] in D.
  den_seq D. den_seq D1. den_seq D2. den_seq D3. den_seq D4. den_seq D5. den_seq D6. den_seq D7.
  apply den_lit in D0 as [-> ->]. apply den_star_cls in D as [H1 ->].
  apply den_chr_inv in D1 as [-> ->]. apply den_star_cls in D2 as [H2 ->].
  apply den_chr_inv in D3 as [-> ->].
  apply den_group_inv in D4 as (c' & D4 & ->).
  apply den_chr_inv in D5 as [-> ->]. apply den_star_cls in D6 as [H3 ->].
  apply den_chr_inv in D8 as [-> ->].
  unfold Plus in D4. den_seq D4. apply den_cls_inv in D as (x & -> & Hx & ->).
  apply den_star_cls in D0 as [Hw ->].
  do 4 eexists. split; [reflexivity|].
  split; [reflexivity|]. do 3 (split; [eassumption|]). split; [done|].
  assert (Hb : forall y, none_of [ch "}"] y = true -> y <> ch "}").
  { intros y Hy ->. by vm_compute in Hy. }
  constructor; [by apply Hb|]. eapply Forall_impl; [exact Hw|]. exact Hb.
Qed.

(** No match of the pattern ever has a closing brace in its body, whatever
    the text: the span of a call never reaches past the first one. *)
Lemma pattern_body_has_no_closing_brace (s : text) (mt : re_match) (rest : text) :
  match_here pattern s = Some (mt, rest) ->
  Forall (fun x => x <> ch "}") (group 1 mt).
Proof.
  intros H. apply match_here_sound in H as [_ D].
  apply den_pattern in D as (w1 & w2 & body & w3 & _ & E & _ & _ & _ & _ & H).
  unfold group. by rewrite E.
Qed.

(** C2, as the code has it: for [toast({ description: "Saved" })] the value of
    the description is promoted to the title and then carried a second time
    as the description, in a two-argument call. *)
Theorem description_only_is_carried_twice :
  replace_toast_multiline call_description_only
  = lit "showSuccess(" ++ dq (lit "Saved") ++ lit ", " ++ dq (lit "Saved") ++ lit ")".
Proof. vm_compute. done. Qed.

(** C3, as the code has it: for the destructive call with title "Oops" and
    description "Bad" the description is dropped; the replacement is the
    one-argument [showError("Oops")]. *)
Theorem destructive_call_loses_description :
  replace_toast_multiline call_destructive = lit "showError(" ++ dq (lit "Oops") ++ lit ")".
Proof. vm_compute. done. Qed.

(** C4, as the code has it: the call whose title is the template literal
    [`Hello ${name}`] is not matched (the closing brace of the interpolation
    ends the body, and a backtick follows it), so it is not rewritten. *)
Theorem interpolated_title_is_not_matched :
  re_search pattern call_interpolated = None
  /\ re_finditer pattern call_interpolated = []
  /\ replace_toast_multiline call_interpolated = call_interpolated.
Proof. vm_compute. done. Qed.

(** * process_file *)

Lemma path_exists_file f p nd : nodes f !! p = Some nd -> path_exists f p = true.
Proof. intros H. unfold path_exists. rewrite H. by apply bool_decide_eq_true_2. Qed.

Lemma path_exists_none f p : path_exists f p = false -> nodes f !! p = None.
Proof.
  unfold path_exists. intros H. apply bool_decide_eq_false_1 in H.
  destruct (nodes f !! p); [|done]. by destruct H.
Qed.

(** [process_file] on a readable file, in terms of [transform]. *)
Lemma process_file_readable f p content :
  nodes f !! p = Some (File content) ->
  process_file f p =
    let after := re_count toast_open_re (transform content) in
    let stats := (Z.of_nat (re_count toast_open_re content) - Z.of_nat after)%Z in
    let warnings :=
      if Nat.ltb 0 after then
        [msg_remaining after] ++ examples 1 (re_finditer remaining_re (transform content))
      else [] in
    if bool_decide (transform content = content) then (f, (false, [msg_no_change], stats))
    else
      match write_text f (backup_path p) content with
      | inl e => (f, (false, [msg_error e], stats))
      | inr f1 =>
          match write_text f1 p (transform content) with
          | inl e => (f1, (false, [msg_error e], stats))
          | inr f2 => (f2, (true, warnings, stats))
          end
      end.
Proof.
  intros H. unfold process_file, create_backup, read_text.
  rewrite (path_exists_file _ _ _ H), H. reflexivity.
Qed.

(** A file whose text the transformation leaves as it is: nothing is
    written and the result is the message that nothing had to change. *)
Lemma process_file_fixpoint f p content :
  nodes f !! p = Some (File content) -> transform content = content ->
  process_file f p
  = (f, (false, [msg_no_change],
         (Z.of_nat (re_count toast_open_re content)
          - Z.of_nat (re_count toast_open_re content))%Z)).
Proof.
  intros H E. rewrite (process_file_readable _ _ _ H). cbv zeta.
  rewrite E. by rewrite bool_decide_eq_true_2.
Qed.

(** ** Idempotence *)


(** When nothing can be extracted the callback returns the match itself. *)
Lemma callback_nothing_extractable (mt : re_match) :
  re_search title_re (group 1 mt) = None ->
  re_search title_template_re (group 1 mt) = None ->
  re_search desc_re (group 1 mt) = None ->
  re_search desc_template_re (group 1 mt) = None ->
  replace_callback mt = group 0 mt.
Proof. intros H1 H2 H3 H4. unfold replace_callback. by rewrite H1, H2, H3, H4. Qed.

(** A text without the word [toast] is left as it is: no call of the old
    shape is found in it and [process_file] reports no change. *)
Lemma transform_without_toast (U : text) :
  contains (lit "toast") U = false ->
  transform U = U
  /\ re_finditer pattern U = []
  /\ re_count toast_open_re U = 0%nat.
Proof.
  intros H. split; [by apply no_toast_transform|]. split.
  - apply (reads_finditer (lit "toast")); [apply pattern_reads_toast|done].
  - unfold re_count.
    by rewrite (reads_finditer (lit "toast")) by (done || apply toast_open_reads_toast).
Qed.

Lemma callback_unextractable (mt : re_match) :
  unextractable mt -> replace_callback mt = group 0 mt.
Proof. intros (H1 & H2 & H3 & H4). by apply callback_nothing_extractable. Qed.




(** ** Failures *)








(** * The replacement of a call *)

Lemma one_of_quotes x : one_of [dquote; squote] x = true -> x = dquote \/ x = squote.
Proof.
  unfold one_of. simpl. rewrite orb_false_r. intros H.
  apply orb_true_iff in H as [H|H]; apply N.eqb_eq in H; auto.
Qed.

(** The lazy repetition inside a quoted value captures nothing. *)
Lemma den_lazy_value_caps p1 a p2 c w c' :
  den (Star false (Alt (Cls p1) (Seq (Chr a) (Cls p2)))) c w c' -> c' = c.
Proof.
  remember (Star false (Alt (Cls p1) (Seq (Chr a) (Cls p2)))) as r eqn:Hr. intros H.
  induction H as [| | | | | | |? ? ? w1 c1 w2 c2 H1 _ Hne H2 IH2| |]; try done.
  injection Hr as -> ->. rewrite (IH2 eq_refl).
  apply den_alt_inv in H1 as [H1|H1].
  - by apply den_cls_inv in H1 as (x & _ & _ & ->).
  - den_seq H1. apply den_chr_inv in D as [_ ->]. by apply den_cls_inv in D0 as (x & _ & _ & ->).
Qed.

Lemma den_quoted_value c w c' :
  den quoted_value c w c' ->
  exists q v, (q = dquote \/ q = squote) /\ w = [q] ++ v ++ [q]
              /\ c' = (2%nat, v) :: (1%nat, [q]) :: c.
Proof.
  intros D. unfold quoted_value in D. cbn [Cat] in D. den_seq D. den_seq D1.
  apply den_group_inv in D0 as (c2 & D0 & ->). apply den_cls_inv in D0 as (q & -> & Hq & ->).
  apply den_group_inv in D as (c2 & D & ->). apply den_lazy_value_caps in D as ->.
  apply den_backref_inv in D2 as [G ->]. simpl in G. injection G as <-.
  exists q, w. split; [by apply one_of_quotes|done].
Qed.

Lemma den_template_value c w c' :
  den template_value c w c' ->
  exists v, w = [backtick] ++ v ++ [backtick] /\ c' = (1%nat, v) :: c.
Proof.
  intros D. unfold template_value in D. cbn [Cat] in D. den_seq D. den_seq D1.
  apply den_chr_inv in D0 as [-> ->]. apply den_group_inv in D as (c2 & D & ->).
  apply den_star_cls in D as [_ ->]. apply den_chr_inv in D2 as [-> ->]. by exists w.
Qed.

(** What a search for a quoted field has found: the key, white space and a
    quoted string stand in the text, and [quoted] gives that string back. *)
Lemma search_quoted_field key s mt :
  re_search (Seq (Lit key) (Seq ws_star quoted_value)) s = Some mt ->
  exists before w after,
    s = before ++ key ++ w ++ quoted mt ++ after
    /\ Forall (fun x => is_space x = true) w
    /\ exists q v, (q = dquote \/ q = squote) /\ quoted mt = [q] ++ v ++ [q].
Proof.
  intros H. apply re_search_sound in H as (before & after & -> & D).
  revert D. unfold quoted, group. generalize (m_all mt) (m_caps mt). intros w c D.
  den_seq D. den_seq D1. apply den_lit in D0 as [-> ->]. apply den_star_cls in D as [Hw ->].
  apply den_quoted_value in D2 as (q & v & Hq & -> & ->). simpl get_group. simpl default.
  exists before, w, after. split; [by rewrite <- !app_assoc|]. split; [done|].
  by exists q, v.
Qed.

Lemma search_template_field key s mt :
  re_search (Seq (Lit key) (Seq ws_star template_value)) s = Some mt ->
  exists before w after,
    s = before ++ key ++ w ++ templated mt ++ after
    /\ Forall (fun x => is_space x = true) w.
Proof.
  intros H. apply re_search_sound in H as (before & after & -> & D).
  revert D. unfold templated, group. generalize (m_all mt) (m_caps mt). intros w c D.
  den_seq D. den_seq D1. apply den_lit in D0 as [-> ->]. apply den_star_cls in D as [Hw ->].
  apply den_template_value in D2 as (v & -> & ->). simpl get_group. simpl default.
  exists before, w, after. split; [by rewrite <- !app_assoc|done].
Qed.

(** The two faces of the test on the description in [replace_callback].  A
    description found without a title is promoted to the title and carried
    again as the description. *)
Lemma description_alone_is_doubled (mt dm : re_match) :
  re_search title_re (group 1 mt) = None ->
  re_search title_template_re (group 1 mt) = None ->
  re_search desc_template_re (group 1 mt) = None ->
  re_search desc_re (group 1 mt) = Some dm ->
  replace_callback mt
  = (if bool_decide (is_Some (re_search variant_re (group 1 mt)))
     then lit "showError(" else lit "showSuccess(")
    ++ quoted dm ++ lit ", " ++ quoted dm ++ lit ")".
Proof.
  intros H1 H2 H3 H4. unfold replace_callback. rewrite H1, H2, H3, H4.
  destruct (search_quoted_field _ _ _ H4) as (_ & _ & _ & _ & _ & q & v & _ & ->).
  by destruct (bool_decide _).
Qed.

(** A quoted description found next to a quoted title is dropped. *)
Lemma quoted_description_is_dropped (mt tm dm : re_match) :
  re_search title_template_re (group 1 mt) = None ->
  re_search title_re (group 1 mt) = Some tm ->
  re_search desc_template_re (group 1 mt) = None ->
  re_search desc_re (group 1 mt) = Some dm ->
  replace_callback mt
  = if bool_decide (is_Some (re_search variant_re (group 1 mt)))
    then lit "showError(" ++ quoted tm ++ lit ")"
    else lit "showToast(" ++ quoted tm ++ lit ", " ++ dq (lit "success") ++ lit ")".
Proof.
  intros H1 H2 H3 H4. unfold replace_callback. rewrite H1, H2, H3, H4.
  by destruct (bool_decide _).
Qed.



(** ** A whole call under the pattern *)

Lemma space_not x a : is_space x = true -> is_space a = false -> x <> a.
Proof. intros Hx Ha ->. congruence. Qed.

(** The pattern reads a call from the word to the closing parenthesis when
    the body is not empty and holds no closing brace. *)
Lemma pattern_matches (w1 w2 body w3 rest : text) :
  Forall (fun x => is_space x = true) w1 ->
  Forall (fun x => is_space x = true) w2 ->
  Forall (fun x => is_space x = true) w3 ->
  body <> [] -> Forall (fun x => x <> ch "}") body ->
  match_here pattern
    ((lit "toast" ++ w1 ++ [ch "("] ++ w2 ++ [ch "{"] ++ body ++ [ch "}"] ++ w3 ++ [ch ")"])
     ++ rest)
  = Some (MkMatch (lit "toast" ++ w1 ++ [ch "("] ++ w2 ++ [ch "{"] ++ body ++ [ch "}"]
                   ++ w3 ++ [ch ")"]) [(1%nat, body)], rest).
Proof.
  intros H1 H2 H3 Hne Hb. apply match_here_intro.
  unfold pattern. cbn [Cat]. rewrite <- !app_assoc.
  rewrite m_seq, m_lit_hit, m_seq. apply m_star_cls_run; [done|done|].
  rewrite m_seq. simpl app. rewrite m_chr_hit, m_seq. apply m_star_cls_run; [done|done|].
  rewrite m_seq, m_chr_hit, m_seq, m_group. unfold Plus. rewrite m_seq.
  destruct body as [|x body]; [done|]. apply Forall_cons in Hb as [Hx Hb].
  assert (Hc : forall y, y <> ch "}" -> none_of [ch "}"] y = true).
  { intros y Hy. unfold none_of, one_of. simpl. rewrite orb_false_r.
    by apply negb_true_iff, N.eqb_neq. }
  simpl app. rewrite m_cls_hit by (by apply Hc).
  apply m_star_cls_run; [eapply Forall_impl; [exact Hb|exact Hc]|done|].
  replace (firstn _ _) with (x :: body).
  2:{ symmetry. rewrite (app_comm_cons body). apply (firstn_consumed (x :: body)). }
  rewrite m_seq, m_chr_hit, m_seq. apply m_star_cls_run; [done|done|].
  by rewrite m_chr_hit.
Qed.

(** ** A quote of the other kind inside a quoted value *)

Lemma plain_not_bslash x : none_of [dquote; squote; bslash] x = true -> (x =? bslash) = false.
Proof.
  unfold none_of, one_of. simpl. rewrite orb_false_r, !negb_orb. intros H.
  apply andb_true_iff in H as [_ H]. apply andb_true_iff in H as [_ H].
  by apply negb_true_iff in H.
Qed.

Lemma plain_not_quote x q : none_of [dquote; squote; bslash] x = true -> is_quote q -> x <> q.
Proof.
  unfold none_of, one_of. simpl. rewrite orb_false_r, !negb_orb. intros H Hq ->.
  apply andb_true_iff in H as [H1 H]. apply andb_true_iff in H as [H2 _].
  apply negb_true_iff, N.eqb_neq in H1, H2. by destruct Hq.
Qed.

Lemma quote_not_plain q : is_quote q -> none_of [dquote; squote; bslash] q = false.
Proof. by intros [-> | ->]. Qed.

Lemma quote_not_bslash q : is_quote q -> (q =? bslash) = false.
Proof. by intros [-> | ->]. Qed.

(** The lazy repetition over a value that runs into a quote [o] while the
    match can only go on at the quote [q]: every way fails. *)
Lemma lazy_value_fails (q o : char) (rest : text) (K : cont) (c : caps) :
  is_quote q -> is_quote o -> o <> q ->
  (forall x s, x <> q -> K (x :: s) c = None) ->
  forall v, unquoted v ->
  forall n, star_loop (m value_step) false K n (v ++ o :: rest) c = None.
Proof.
  intros Hq Ho Hoq HK v Hv. induction Hv as [|x v Hx Hv IH|y v Hv IH]; intros n.
  - destruct n as [|n]; simpl; rewrite (HK o) by done; [done|].
    by rewrite (quote_not_plain o), (quote_not_bslash o).
  - assert (Hxq : x <> q) by (by apply plain_not_quote).
    destruct n as [|n]; simpl; rewrite (HK x) by done; [done|].
    rewrite Hx, (plain_not_bslash x Hx).
    destruct (Nat.ltb _ _); [by rewrite IH|done].
  - assert (Hbq : bslash <> q) by (by destruct Hq as [-> | ->]).
    destruct n as [|n]; simpl; rewrite (HK bslash) by done; [done|].
    destruct (dot y); [|done].
    destruct (Nat.ltb _ _); [by rewrite IH|done].
Qed.

Lemma space_not_quote x : is_space x = true -> one_of [dquote; squote] x = false.
Proof.
  intros Hx. unfold one_of. simpl. rewrite orb_false_r.
  apply orb_false_iff. split; apply N.eqb_neq; intros ->; done.
Qed.

Lemma quote_is_one_of q : is_quote q -> one_of [dquote; squote] q = true.
Proof. by intros [-> | ->]. Qed.

Lemma quote_not_space q : is_quote q -> is_space q = false.
Proof. by intros [-> | ->]. Qed.

(** The quoted form of a field does not match at a field whose string holds
    a bare quote of the other kind. *)
Lemma quoted_field_fails (key w v rest : text) (q o : char) :
  Forall (fun x => is_space x = true) w ->
  is_quote q -> is_quote o -> o <> q -> unquoted v ->
  match_here (Seq (Lit key) (Seq ws_star quoted_value))
             (key ++ w ++ [q] ++ v ++ [o] ++ rest) = None.
Proof.
  intros Hw Hq Ho Hoq Hv. apply match_here_none.
  rewrite m_seq, m_lit_hit, m_seq. apply m_star_cls_fail; [done|by apply quote_not_space|].
  intros w' Hw'. unfold quoted_value. cbn [Cat]. rewrite m_seq, m_group.
  destruct w' as [|y w']; simpl app.
  - rewrite m_cls_hit by (by apply quote_is_one_of).
    change (take _ _) with (take (length ([q] ++ (v ++ [o] ++ rest)) - length (v ++ [o] ++ rest))
                                 ([q] ++ (v ++ [o] ++ rest))).
    rewrite firstn_consumed.
    rewrite m_seq, m_group. cbn [m].
    apply lazy_value_fails with (q := q); try done.
    intros x s Hx. simpl. rewrite N.eqb_sym.
    apply N.eqb_neq in Hx. by rewrite Hx.
  - assert (Hy : is_space y = true).
    { destruct Hw' as [pre ->]. apply Forall_app in Hw as [_ Hw]. by apply Forall_cons in Hw as [? _]. }
    cbn [m]. by rewrite (space_not_quote y Hy).
Qed.

(** ** A call whose only field holds a quote of the other kind *)

Lemma lit_mismatch L r s : starts_with L s = false -> match_here (Seq (Lit L) r) s = None.
Proof. intros H. apply match_here_none. by rewrite m_seq, m_lit, H. Qed.

Lemma reads_lit_mid L a l b : L = a ++ l ++ b -> reads l (Lit L).
Proof. intros -> c w c' D. apply den_lit in D as [-> _]. apply contains_mid. Qed.

Lemma contains_single_false a s : Forall (fun x => x <> a) s -> contains [a] s = false.
Proof.
  induction 1 as [|x s Hx Hs IH]; [done|]. simpl. rewrite IH, orb_false_r, andb_true_r.
  apply N.eqb_neq. congruence.
Qed.

Lemma word_char_not x a :
  word_char x = true -> one_of [dquote; squote; bslash; backtick; ch "}"; ch ":"] a = true ->
  x <> a.
Proof. unfold word_char, none_of. intros H Ha ->. by rewrite Ha in H. Qed.

Lemma word_char_plain x : word_char x = true -> none_of [dquote; squote; bslash] x = true.
Proof.
  unfold word_char, none_of, one_of. simpl. rewrite !orb_false_r, !negb_orb.
  intros H. repeat (apply andb_true_iff in H as [? H]). by repeat (apply andb_true_iff; split).
Qed.

Lemma words_unquoted v : Forall (fun x => word_char x = true) v -> unquoted v.
Proof.
  induction 1 as [|x v Hx Hv IH]; [constructor|].
  apply unq_plain; [by apply word_char_plain|done].
Qed.

Lemma pattern_matches_call (a b body c rest : text) :
  spaces a -> spaces b -> spaces c ->
  body <> [] -> Forall (fun x => x <> ch "}") body ->
  match_here pattern (call a b body c ++ rest)
  = Some (MkMatch (call a b body c) [(1%nat, body)], rest).
Proof. apply pattern_matches. Qed.

(** The rewriting of a text that starts with a call: the callback on the
    call, then the rewriting of what follows. *)
Lemma replace_toast_multiline_call (a b body c rest : text) :
  spaces a -> spaces b -> spaces c ->
  body <> [] -> Forall (fun x => x <> ch "}") body ->
  replace_toast_multiline (call a b body c ++ rest)
  = replace_callback (MkMatch (call a b body c) [(1%nat, body)])
    ++ replace_toast_multiline rest.
Proof.
  intros Ha Hb Hc Hne Hbody. unfold replace_toast_multiline.
  apply re_sub_with_hit; [by apply pattern_matches_call|]. by destruct a.
Qed.

Lemma template_field_fails (key w rest : text) (q : char) :
  spaces w -> is_quote q ->
  match_here (Seq (Lit key) (Seq ws_star template_value)) (key ++ w ++ [q] ++ rest) = None.
Proof.
  intros Hw Hq. apply match_here_none.
  rewrite m_seq, m_lit_hit, m_seq. apply m_star_cls_fail; [done|by apply quote_not_space|].
  intros w' Hw'. destruct w' as [|y w']; simpl app.
  - apply (first_is_cons _ backtick); [done|by destruct Hq as [-> | ->]].
  - apply (first_is_cons _ backtick); [done|].
    destruct Hw' as [pre ->]. apply Forall_app in Hw as [_ Hw].
    apply Forall_cons in Hw as [Hy _]. by intros ->.
Qed.

(** A search through white space, then a key, then a text without a colon,
    for a field pattern that does not match inside the key. *)
Lemma field_search_none (L key w0 T : text) (V : regex) (c0 : char) :
  first_is (Seq (Lit L) (Seq ws_star V)) c0 = true -> is_space c0 = false ->
  reads [ch ":"] (Lit L) ->
  spaces w0 -> Forall (fun x => x <> ch ":") T ->
  quiet (Seq (Lit L) (Seq ws_star V)) key T ->
  re_search (Seq (Lit L) (Seq ws_star V)) (w0 ++ key ++ T) = None.
Proof.
  intros Hf Hc Hr Hw HT Q.
  rewrite (re_search_quiet _ w0).
  - rewrite (re_search_quiet _ key T Q).
    apply (reads_search [ch ":"]); [by apply reads_seq_l|by apply contains_single_false].
  - apply (quiet_first _ c0); [done|].
    eapply Forall_impl; [exact Hw|]. intros x Hx ->. congruence.
Qed.

Ltac concrete_lit l :=
  let k := eval vm_compute in (lit l) in change (lit l) with k.

Ltac quiet_rest :=
  repeat (apply quiet_cons; [apply lit_mismatch; reflexivity|]); apply quiet_nil.

Section OtherQuote.
Variables (w0 w w1 v1 v2 : text) (q o : char).
Hypothesis (Hw0 : spaces w0) (Hw : spaces w) (Hw1 : spaces w1).
Hypothesis (Hq : is_quote q) (Ho : is_quote o) (Hoq : o <> q).
Hypothesis (Hv1 : Forall (fun x => word_char x = true) v1).
Hypothesis (Hv2 : Forall (fun x => word_char x = true) v2).

Lemma tail_of_field_chars (a : char) :
  is_space a = false -> ~ is_quote a -> word_char a = false ->
  Forall (fun x => x <> a) (tail_of_field w w1 v1 v2 q o).
Proof using Hw Hw1 Hq Ho Hv1 Hv2.
  intros Ha1 Ha2 Ha3.
  assert (S : forall l, spaces l -> Forall (fun x => x <> a) l).
  { intros l Hl. eapply Forall_impl; [exact Hl|]. intros x Hx ->. congruence. }
  assert (W : forall l, Forall (fun x => word_char x = true) l -> Forall (fun x => x <> a) l).
  { intros l Hl. eapply Forall_impl; [exact Hl|]. intros x Hx ->. congruence. }
  assert (Q : forall x, is_quote x -> x <> a) by (by intros x Hx ->).
  unfold tail_of_field. repeat (apply Forall_app; split); auto; repeat constructor; auto.
Qed.

Lemma tail_of_field_no_colon : Forall (fun x => x <> ch ":") (tail_of_field w w1 v1 v2 q o).
Proof using Hw Hw1 Hq Ho Hv1 Hv2.
  apply tail_of_field_chars; [done| |done]. by intros [? | ?].
Qed.

Lemma tail_of_field_no_brace : Forall (fun x => x <> ch "}") (tail_of_field w w1 v1 v2 q o).
Proof using Hw Hw1 Hq Ho Hv1 Hv2.
  apply tail_of_field_chars; [done| |done]. by intros [? | ?].
Qed.

(** None of the four field patterns finds anything in a body whose only
    field is a title with such a string. *)
Lemma title_body_searches :
  re_search title_re (w0 ++ lit "title:" ++ (tail_of_field w w1 v1 v2 q o)) = None
  /\ re_search title_template_re (w0 ++ lit "title:" ++ (tail_of_field w w1 v1 v2 q o)) = None
  /\ re_search desc_re (w0 ++ lit "title:" ++ (tail_of_field w w1 v1 v2 q o)) = None
  /\ re_search desc_template_re (w0 ++ lit "title:" ++ (tail_of_field w w1 v1 v2 q o)) = None.
Proof using All.
  pose proof tail_of_field_no_colon as HT.
  split; [|split; [|split]].
  - apply (field_search_none _ _ _ _ _ (ch "t")); try done.
    + by apply (reads_lit_mid _ (lit "title") _ []).
    + concrete_lit "title:"%string. apply quiet_cons; [|quiet_rest].
      apply (quoted_field_fails (lit "title:") w v1 (v2 ++ [q] ++ w1) q o); try done.
      by apply words_unquoted.
  - apply (field_search_none _ _ _ _ _ (ch "t")); try done.
    + by apply (reads_lit_mid _ (lit "title") _ []).
    + concrete_lit "title:"%string. apply quiet_cons; [|quiet_rest].
      by apply (template_field_fails (lit "title:") w _ q).
  - apply (field_search_none _ _ _ _ _ (ch "d")); try done.
    + by apply (reads_lit_mid _ (lit "description") _ []).
    + concrete_lit "title:"%string. quiet_rest.
  - apply (field_search_none _ _ _ _ _ (ch "d")); try done.
    + by apply (reads_lit_mid _ (lit "description") _ []).
    + concrete_lit "title:"%string. quiet_rest.
Qed.

(** The same for a body whose only field is a description. *)
Lemma description_body_searches :
  re_search title_re (w0 ++ lit "description:" ++ (tail_of_field w w1 v1 v2 q o)) = None
  /\ re_search title_template_re (w0 ++ lit "description:" ++ (tail_of_field w w1 v1 v2 q o)) = None
  /\ re_search desc_re (w0 ++ lit "description:" ++ (tail_of_field w w1 v1 v2 q o)) = None
  /\ re_search desc_template_re (w0 ++ lit "description:" ++ (tail_of_field w w1 v1 v2 q o)) = None.
Proof using All.
  pose proof tail_of_field_no_colon as HT.
  split; [|split; [|split]].
  - apply (field_search_none _ _ _ _ _ (ch "t")); try done.
    + by apply (reads_lit_mid _ (lit "title") _ []).
    + concrete_lit "description:"%string. quiet_rest.
  - apply (field_search_none _ _ _ _ _ (ch "t")); try done.
    + by apply (reads_lit_mid _ (lit "title") _ []).
    + concrete_lit "description:"%string. quiet_rest.
  - apply (field_search_none _ _ _ _ _ (ch "d")); try done.
    + by apply (reads_lit_mid _ (lit "description") _ []).
    + concrete_lit "description:"%string. apply quiet_cons; [|quiet_rest].
      apply (quoted_field_fails (lit "description:") w v1 (v2 ++ [q] ++ w1) q o); try done.
      by apply words_unquoted.
  - apply (field_search_none _ _ _ _ _ (ch "d")); try done.
    + by apply (reads_lit_mid _ (lit "description") _ []).
    + concrete_lit "description:"%string. apply quiet_cons; [|quiet_rest].
      by apply (template_field_fails (lit "description:") w _ q).
Qed.
End OtherQuote.

(** C10: a quote of the other kind, bare, inside the quoted string of a
    title or of a description defeats the extraction of the field.  The
    pattern of the field does not match at the field, whatever the string
    holds before that quote (ordinary characters, escaped characters) and
    whatever follows it.  A call whose only field is such a title or
    description, with words on both sides of the quote, gives nothing to any
    of the four searches and is left as it is by the rewriting. *)
Theorem other_quote_defeats_extraction
    (key a b c w0 w w1 v1 v2 rest : text) (q o : char) :
  key = lit "title:" \/ key = lit "description:" ->
  spaces a -> spaces b -> spaces c -> spaces w0 -> spaces w -> spaces w1 ->
  is_quote q -> is_quote o -> o <> q ->
  Forall (fun x => word_char x = true) v1 ->
  Forall (fun x => word_char x = true) v2 ->
  (forall v after, unquoted v ->
     match_here title_re (lit "title:" ++ w ++ [q] ++ v ++ [o] ++ after) = None
     /\ match_here desc_re (lit "description:" ++ w ++ [q] ++ v ++ [o] ++ after) = None)
  /\ (let body := w0 ++ key ++ w ++ [q] ++ v1 ++ [o] ++ v2 ++ [q] ++ w1 in
      re_search title_re body = None
      /\ re_search title_template_re body = None
      /\ re_search desc_re body = None
      /\ re_search desc_template_re body = None
      /\ replace_toast_multiline (call a b body c ++ rest)
         = call a b body c ++ replace_toast_multiline rest)
  /\ (forall mt, unextractable mt -> replace_callback mt = group 0 mt).
Proof.
  intros Hkey Ha Hb Hc Hw0 Hw Hw1 Hq Ho Hoq Hv1 Hv2.
  split; [|split; [|exact callback_unextractable]].
  - intros v after Hv. split.
    + by apply (quoted_field_fails (lit "title:")).
    + by apply (quoted_field_fails (lit "description:")).
  - cbv zeta.
    assert (S : re_search title_re (w0 ++ key ++ tail_of_field w w1 v1 v2 q o) = None
             /\ re_search title_template_re (w0 ++ key ++ tail_of_field w w1 v1 v2 q o) = None
             /\ re_search desc_re (w0 ++ key ++ tail_of_field w w1 v1 v2 q o) = None
             /\ re_search desc_template_re (w0 ++ key ++ tail_of_field w w1 v1 v2 q o) = None).
    { destruct Hkey as [-> | ->];
        [by apply title_body_searches|by apply description_body_searches]. }
    unfold tail_of_field in S. destruct S as (S1 & S2 & S3 & S4).
    repeat (split; [done|]).
    rewrite replace_toast_multiline_call; try done.
    + f_equal. by apply callback_nothing_extractable.
    + destruct Hkey as [-> | ->]; by destruct w0.
    + apply Forall_app. split.
      { eapply Forall_impl; [exact Hw0|]. by intros x Hx ->. }
      apply Forall_app. split.
      { destruct Hkey as [-> | ->]; vm_compute; repeat constructor; discriminate. }
      by apply (tail_of_field_no_brace w w1 v1 v2 q o).
Qed.

(** [toast({ title: "It's done" })], in its parts. *)
Lemma other_quote_defeats_extraction_witness :
  let body := lit " " ++ lit "title:" ++ lit " " ++ [dquote] ++ lit "It" ++ [squote]
              ++ lit "s done" ++ [dquote] ++ lit " " in
  call [] [] body [] = lit "toast({ title: " ++ dq (lit "It's done") ++ lit " })"
  /\ re_search title_re body = None
  /\ replace_toast_multiline (call [] [] body [] ++ [])
     = call [] [] body [] ++ replace_toast_multiline [].
Proof.
  cbv zeta. split; [reflexivity|].
  destruct (other_quote_defeats_extraction (lit "title:") [] [] [] (lit " ") (lit " ") (lit " ")
              (lit "It") (lit "s done") [] dquote squote) as (_ & (H1 & _ & _ & _ & H5) & _).
  - by left.
  - constructor.
  - constructor.
  - constructor.
  - vm_compute. repeat constructor.
  - vm_compute. repeat constructor.
  - vm_compute. repeat constructor.
  - by left.
  - by right.
  - discriminate.
  - vm_compute. repeat constructor.
  - vm_compute. repeat constructor.
  - split; [exact H1|exact H5].
Defined.

(** * The dependency lists *)

Lemma dep_last_shape : dep_last_re = dep_shape (ch ",") (ch "]").
Proof. reflexivity. Qed.
Lemma dep_first_shape : dep_first_re = dep_shape (ch "[") (ch ",").
Proof. reflexivity. Qed.
Lemma dep_only_shape : dep_only_re = dep_shape (ch "[") (ch "]").
Proof. reflexivity. Qed.


Lemma den_dep_shape c1 c2 c w c' :
  den (dep_shape c1 c2) c w c' ->
  exists w1 w2, spaces w1 /\ spaces w2 /\ w = [c1] ++ w1 ++ lit "toast" ++ w2 ++ [c2].
Proof.
  intros D. unfold dep_shape in D. den_seq D. den_seq D1. den_seq D2. den_seq D3.
  apply den_chr_inv in D0 as [-> _]. apply den_star_cls in D as [H1 _].
  apply den_lit in D1 as [-> _]. apply den_star_cls in D2 as [H2 _].
  apply den_chr_inv in D4 as [-> _]. eauto.
Qed.




Lemma spaces_not (a : char) (w : text) :
  is_space a = false -> spaces w -> Forall (fun x => x <> a) w.
Proof. intros Ha Hw. eapply Forall_impl; [exact Hw|]. intros x Hx ->. congruence. Qed.








(** ** Where the matches of a scan come from, and where they go *)

Lemma scan_hit_origin r mt : forall s k,
  In (Hit mt) (scan r k s) -> exists s' rest, match_here r s' = Some (mt, rest).
Proof.
  induction s as [|x s IH]; intros k H.
  - destruct k; simpl in H; [|done].
    destruct (match_here r []) as [[mt' rest]|] eqn:E; [|done].
    destruct (length (m_all mt')); destruct H as [H|H]; try done; injection H as ->; eauto.
  - destruct k as [|k]; simpl in H; [|by eapply IH].
    destruct (match_here r (x :: s)) as [[mt' rest]|] eqn:E.
    + destruct H as [H|H]; [injection H as ->; eauto|].
      destruct (length (m_all mt')).
      * destruct H as [H|H]; [done|by eapply IH].
      * by eapply IH.
    + destruct H as [H|H]; [done|by eapply IH].
Qed.

Lemma finditer_in_scan r s mt : In mt (re_finditer r s) -> In (Hit mt) (scan r O s).
Proof.
  unfold re_finditer. generalize (scan r O s). intros l.
  induction l as [|[c|mt'] l IH]; simpl; intros H; [done|auto|].
  destruct H as [-> | H]; auto.
Qed.

Lemma re_sub_with_piece r f s mt :
  In (Hit mt) (scan r O s) -> exists A B, re_sub_with r f s = A ++ f mt ++ B.
Proof.
  intros H. apply in_split in H as (l1 & l2 & E). unfold re_sub_with. rewrite E.
  rewrite map_app, concat_app. simpl. eauto.
Qed.

Lemma re_sub_with_miss r f x s :
  match_here r (x :: s) = None -> re_sub_with r f (x :: s) = x :: re_sub_with r f s.
Proof. intros H. unfold re_sub_with. by rewrite scan_miss. Qed.

Lemma re_search_later r a b :
  re_search r b <> None -> re_search r (a ++ b) <> None.
Proof.
  intros H. induction a as [|x a IH]; [done|]. simpl.
  by destruct (match_here r (x :: a ++ b)) as [[? ?]|].
Qed.

Lemma re_search_count r s : re_search r s <> None -> re_count r s <> 0%nat.
Proof.
  unfold re_count, re_finditer. induction s as [|x s IH]; simpl; intros H.
  - by destruct (match_here r []) as [[? ?]|].
  - destruct (match_here r (x :: s)) as [[? ?]|]; [done|]. simpl. by apply IH.
Qed.

(** ** The opening of a call and the cleaning of the lists *)

(** A text [M] that ends with [c2] and is read at the head of [A ++ O ++ B]
    ends inside [A] when [c2] is not in [O] and [O] holds a character that
    [M] does not. *)
Lemma hit_before_opening (M0 O A B rest : text) (p c2 : char) :
  (M0 ++ [c2]) ++ rest = A ++ O ++ B ->
  Forall (fun x => x <> c2) O -> In p O -> ~ In p (M0 ++ [c2]) ->
  exists k, A = (M0 ++ [c2]) ++ k /\ rest = k ++ O ++ B.
Proof.
  intros E HO Hp HM. apply app_eq_app in E as [l [[E1 E2]|[E1 E2]]]; [|by exists l].
  destruct (decide (l = [])) as [-> | Hl].
  { exists []. rewrite app_nil_r in E1. by rewrite app_nil_r, <- E1. }
  destruct (exists_last Hl) as (l0 & z & ->). clear Hl. rename l0 into l.
  rewrite app_assoc in E1. apply app_inj_tail in E1 as [E1 <-].
  apply app_eq_app in E2 as [l' [[E3 E4]|[E3 E4]]].
  - exfalso. rewrite Forall_forall in HO. apply (HO c2); [|done].
    rewrite E3, <- app_assoc. apply list_elem_of_In, in_or_app. right.
    apply in_or_app. left. by left.
  - exfalso. apply HM. rewrite E1, <- app_assoc, E3. apply in_or_app. right.
    apply in_or_app. by left.
Qed.

(** A substitution on the dependency lists leaves an opening [O] of a call
    where it is. *)
Lemma dep_sub_keeps (c1 c2 p : char) (f : re_match -> text) (O : text) :
  Forall (fun x => x <> c1) O -> Forall (fun x => x <> c2) O ->
  In p O -> is_space p = false -> p <> c1 -> p <> c2 -> ~ In p (lit "toast") ->
  forall n A B, (length A <= n)%nat ->
    exists A' B', re_sub_with (dep_shape c1 c2) f (A ++ O ++ B) = A' ++ O ++ B'.
Proof.
  intros H1 H2 Hp Hs Hp1 Hp2 Ht. induction n as [|n IH]; intros A B Hn.
  - destruct A; [|simpl in Hn; lia]. exists [], (re_sub_with (dep_shape c1 c2) f B).
    simpl. apply re_sub_with_quiet. apply (quiet_first _ c1); [apply N.eqb_refl|done].
  - destruct A as [|x A].
    { exists [], (re_sub_with (dep_shape c1 c2) f B).
      simpl. apply re_sub_with_quiet. apply (quiet_first _ c1); [apply N.eqb_refl|done]. }
    destruct (match_here (dep_shape c1 c2) ((x :: A) ++ O ++ B)) as [[mt rest]|] eqn:E.
    + destruct (match_here_sound _ _ _ _ E) as [Es D].
      apply den_dep_shape in D as (w1 & w2 & Hw1 & Hw2 & Ew).
      assert (Em : m_all mt = ([c1] ++ w1 ++ lit "toast" ++ w2) ++ [c2])
        by (by rewrite Ew, <- !app_assoc).
      rewrite Em in Es. symmetry in Es.
      apply hit_before_opening with (p := p) in Es as (k & Ek & ->); [|done|done|].
      * rewrite (re_sub_with_hit _ _ _ _ _ E) by (by rewrite Em; destruct w1).
        destruct (IH k B) as (A' & B' & EA).
        { rewrite Ek in Hn. rewrite !length_app in Hn. simpl in Hn. lia. }
        exists (f mt ++ A'), B'. by rewrite EA, <- app_assoc.
      * intros Hin. rewrite <- !app_assoc in Hin.
        apply in_app_or in Hin as [Hin|Hin]; [destruct Hin as [?|[]]; congruence|].
        apply in_app_or in Hin as [Hin|Hin].
        { apply list_elem_of_In in Hin. rewrite Forall_forall in Hw1.
          apply Hw1 in Hin. congruence. }
        apply in_app_or in Hin as [Hin|Hin]; [done|].
        apply in_app_or in Hin as [Hin|Hin].
        { apply list_elem_of_In in Hin. rewrite Forall_forall in Hw2.
          apply Hw2 in Hin. congruence. }
        destruct Hin as [?|[]]; congruence.
    + simpl in E. simpl app. rewrite (re_sub_with_miss _ _ _ _ E).
      destruct (IH A B) as (A' & B' & EA); [simpl in Hn; lia|].
      exists (x :: A'), B'. by rewrite EA.
Qed.

(** The opening of a call: the word, an opening parenthesis and an opening
    brace, with white space between them. *)
Lemma toast_open_matches (w1 w2 rest : text) :
  spaces w1 -> spaces w2 ->
  match_here toast_open_re ((lit "toast" ++ w1 ++ [ch "("] ++ w2 ++ [ch "{"]) ++ rest)
  = Some (MkMatch (lit "toast" ++ w1 ++ [ch "("] ++ w2 ++ [ch "{"]) [], rest).
Proof.
  intros H1 H2. apply match_here_intro. unfold toast_open_re. cbn [Cat].
  rewrite <- !app_assoc. rewrite m_seq, m_lit_hit, m_seq.
  apply m_star_cls_run; [done|done|]. cbn [app]. rewrite m_seq, m_chr_hit, m_seq.
  apply m_star_cls_run; [done|done|]. by rewrite m_chr_hit.
Qed.

(** A call that the rewriting leaves in the text is still counted after the
    cleaning of the lists. *)
Lemma kept_call_is_counted (content : text) (mt : re_match) :
  In mt (re_finditer pattern content) ->
  replace_callback mt = group 0 mt ->
  (exists A B, replace_toast_multiline content = A ++ group 0 mt ++ B)
  /\ re_count toast_open_re (transform content) <> 0%nat.
Proof.
  intros Hin Hcb. apply finditer_in_scan in Hin.
  destruct (re_sub_with_piece pattern replace_callback _ _ Hin) as (A & B & E).
  rewrite Hcb in E. split; [by exists A, B|].
  apply scan_hit_origin in Hin as (s' & rest & Hm).
  apply match_here_sound in Hm as [_ D].
  apply den_pattern in D as (w1 & w2 & body & w3 & Em & _ & H1 & H2 & _ & _ & _).
  set (O := lit "toast" ++ w1 ++ [ch "("] ++ w2 ++ [ch "{"]).
  assert (HO : forall a, is_space a = false -> one_of (lit "toast(" ++ [ch "{"]) a = false ->
                         Forall (fun x => x <> a) O).
  { intros a Ha1 Ha2.
    assert (T : forall l, (forall y, In y l -> one_of (lit "toast(" ++ [ch "{"]) y = true) ->
                          Forall (fun x => x <> a) l).
    { intros l Hl. apply Forall_forall. intros y Hy ->. apply list_elem_of_In, Hl in Hy.
      congruence. }
    unfold O. repeat (apply Forall_app; split); try (by apply spaces_not);
      apply T; intros y Hy; apply existsb_exists; exists y;
      (split; [|apply N.eqb_refl]); vm_compute in Hy |- *; tauto. }
  assert (K : forall c1 c2 f A B,
            is_space c1 = false -> one_of (lit "toast(" ++ [ch "{"]) c1 = false ->
            is_space c2 = false -> one_of (lit "toast(" ++ [ch "{"]) c2 = false ->
            exists A' B', re_sub_with (dep_shape c1 c2) f (A ++ O ++ B) = A' ++ O ++ B').
  { intros c1 c2 f A0 B0 Hc1 Hc1' Hc2 Hc2'.
    apply (dep_sub_keeps c1 c2 (ch "(") f O) with (n := length A0); try done.
    - by apply HO.
    - by apply HO.
    - unfold O. apply in_or_app. right. apply in_or_app. right. apply in_or_app. left. by left.
    - intros Ec. subst c1. by vm_compute in Hc1'.
    - intros Ec. subst c2. by vm_compute in Hc2'.
    - vm_compute. intuition discriminate. }
  unfold transform, clean_deps, re_sub, replace_toast_multiline.
  unfold replace_toast_multiline in E. rewrite E. unfold group. rewrite Em.
  change (lit "toast" ++ w1 ++ [ch "("] ++ w2 ++ [ch "{"] ++ body ++ [ch "}"] ++ w3 ++ [ch ")"])
    with (lit "toast" ++ w1 ++ [ch "("] ++ w2 ++ [ch "{"] ++ (body ++ [ch "}"] ++ w3 ++ [ch ")"])).
  replace (A ++ (lit "toast" ++ w1 ++ [ch "("] ++ w2 ++ [ch "{"]
                 ++ (body ++ [ch "}"] ++ w3 ++ [ch ")"])) ++ B)
    with (A ++ O ++ ((body ++ [ch "}"] ++ w3 ++ [ch ")"]) ++ B))
    by (unfold O; by rewrite <- !app_assoc).
  rewrite dep_last_shape, dep_first_shape, dep_only_shape.
  destruct (K (ch ",") (ch "]") (fun _ => lit "]") A ((body ++ [ch "}"] ++ w3 ++ [ch ")"]) ++ B))
    as (A1 & B1 & ->); try done.
  destruct (K (ch "[") (ch ",") (fun _ => lit "[") A1 B1) as (A2 & B2 & ->); try done.
  destruct (K (ch "[") (ch "]") (fun _ => lit "[]") A2 B2) as (A3 & B3 & ->); try done.
  apply re_search_count, re_search_later.
  unfold O. by rewrite (re_search_hit _ _ _ _ (toast_open_matches w1 w2 B3 H1 H2)).
Qed.

(** * Calls that are left as they are *)

(** The claim C8 fails on a file that holds only
    [toast({ variant: "destructive" })]: the call is matched, nothing can be
    extracted from it, the text is left as it is, and the result of
    [process_file] is the single message that nothing had to change, which
    does not mention the call.  It also fails on
    [toast({ deps: [toast] })]: the rewriting leaves the call as it is but
    the cleaning of the dependency lists then rewrites the list inside it. *)
Lemma unextractable_call_is_not_reported :
  (exists mt,
     re_finditer pattern call_no_fields = [mt]
     /\ group 0 mt = call_no_fields
     /\ unextractable mt)
  /\ process_file (one_file call_no_fields) (lit "src/a.tsx")
     = (one_file call_no_fields, (false, [msg_no_change], 0%Z))
  /\ contains (lit "toast") msg_no_change = false
  /\ replace_toast_multiline call_with_list = call_with_list
  /\ transform call_with_list = lit "toast({ deps: [] })".
Proof.
  split.
  - eexists. split; [vm_compute; reflexivity|]. vm_compute. done.
  - vm_compute. done.
Qed.

(** C8, amended: for a call found in the text of a file, from which neither a
    title nor a description can be extracted, the rewriting of the calls
    returns the text of the call byte for byte, so that it stands in the
    rewritten text; its opening [toast({] is still there after the cleaning
    of the dependency lists; and when [process_file] reports the file as
    changed, the warnings start with the message that gives the number of
    the calls that remain. *)
Theorem unextractable_call_is_kept (f : fs) (p : path) (content : text) (mt : re_match) :
  nodes f !! p = Some (File content) ->
  In mt (re_finditer pattern content) ->
  unextractable mt ->
  replace_callback mt = group 0 mt
  /\ (exists A B, replace_toast_multiline content = A ++ group 0 mt ++ B)
  /\ re_count toast_open_re (transform content) <> 0%nat
  /\ forall f' warnings stats,
       process_file f p = (f', (true, warnings, stats)) ->
       exists others,
         warnings = msg_remaining (re_count toast_open_re (transform content)) :: others
         /\ contains (lit "Il reste") (msg_remaining (re_count toast_open_re (transform content)))
            = true.
Proof.
  intros Hp Hin Hu.
  assert (Hcb : replace_callback mt = group 0 mt) by (by apply callback_unextractable).
  destruct (kept_call_is_counted content mt Hin Hcb) as [Hkept Hn].
  split; [done|]. split; [done|]. split; [done|].
  intros f' warnings stats P. rewrite (process_file_readable _ _ _ Hp) in P.
  cbv zeta in P. destruct (bool_decide (transform content = content)); [done|].
  destruct (write_text f (backup_path p) content) as [e|f1]; [done|].
  destruct (write_text f1 p (transform content)) as [e|f2]; [done|].
  injection P as _ <- _.
  destruct (re_count toast_open_re (transform content)) as [|n] eqn:E; [done|].
  simpl Nat.ltb. cbv iota. eexists. split; [reflexivity|].
  unfold msg_remaining. apply (contains_app_r _ [9888; 65039]), contains_app_l.
  vm_compute. reflexivity.
Qed.

Lemma unextractable_call_is_kept_witness :
  replace_callback match_residual = group 0 match_residual
  /\ (exists A B, replace_toast_multiline residual_text = A ++ group 0 match_residual ++ B)
  /\ re_count toast_open_re (transform residual_text) <> 0%nat
  /\ forall f' warnings stats,
       process_file (one_file residual_text) (lit "src/a.tsx") = (f', (true, warnings, stats)) ->
       exists others,
         warnings = msg_remaining (re_count toast_open_re (transform residual_text)) :: others
         /\ contains (lit "Il reste")
              (msg_remaining (re_count toast_open_re (transform residual_text))) = true.
Proof.
  apply (unextractable_call_is_kept (one_file residual_text) (lit "src/a.tsx")
           residual_text match_residual).
  - vm_compute. reflexivity.
  - vm_compute. left. reflexivity.
  - vm_compute. done.
Defined.

(** * Further properties of process_file *)

Lemma backup_path_other (p : path) : backup_path p <> p.
Proof.
  unfold backup_path. intros E. apply (f_equal length) in E.
  rewrite length_app in E. vm_compute (length (lit ".bak")) in E. lia.
Qed.

(** All the ways [process_file] can go. *)
Lemma process_file_cases (f : fs) (p : path) :
  (nodes f !! p = None /\ process_file f p = (f, (false, [msg_not_found p], 0%Z)))
  \/ (exists e, nodes f !! p = Some (Unreadable e)
                /\ process_file f p = (f, (false, [msg_error e], 0%Z)))
  \/ (exists content, nodes f !! p = Some (File content)
      /\ ((transform content = content
           /\ process_file f p = (f, (false, [msg_no_change], replaced content)))
          \/ (transform content <> content
              /\ exists e, write_raises f !! backup_path p = Some e
                 /\ process_file f p = (f, (false, [msg_error e], replaced content)))
          \/ (transform content <> content /\ write_raises f !! backup_path p = None
              /\ exists e, write_raises f !! p = Some e
                 /\ process_file f p
                    = (with_backup f p content, (false, [msg_error e], replaced content)))
          \/ (transform content <> content /\ write_raises f !! backup_path p = None
              /\ write_raises f !! p = None
              /\ process_file f p
                 = (written f p content, (true, warnings_of content, replaced content))))).
Proof.
  destruct (nodes f !! p) as [[content|e]|] eqn:E.
  - right. right. exists content. split; [done|].
    rewrite (process_file_readable _ _ _ E). cbv zeta.
    destruct (decide (transform content = content)) as [Ht|Ht].
    + left. split; [done|]. by rewrite bool_decide_eq_true_2.
    + right. rewrite bool_decide_eq_false_2 by done. unfold write_text.
      destruct (write_raises f !! backup_path p) as [e|] eqn:Eb.
      * left. split; [done|]. by exists e.
      * right. simpl. destruct (write_raises f !! p) as [e|] eqn:Ew.
        -- left. repeat (split; [done|]). by exists e.
        -- right. done.
  - right. left. exists e. split; [done|].
    unfold process_file, read_text. by rewrite (path_exists_file _ _ _ E), E.
  - left. split; [done|]. unfold process_file, path_exists. rewrite E.
    by rewrite bool_decide_eq_false_2 by (by intros [? ?]).
Qed.


(** X2: unless [process_file] reports a change, the file it was given still
    holds what it held, whichever step failed. *)
Theorem process_file_keeps_original (f : fs) (p : path) :
  (process_file f p).2.1.1 = false ->
  nodes (process_file f p).1 !! p = nodes f !! p.
Proof.
  intros H. destruct (process_file_cases f p)
    as [[_ P]|[(e & _ & P)|(content & E & [[_ P]|[(_ & e & _ & P)|[(_ & _ & e & _ & P)|(Ht & Eb & Ew & P)]]])]];
    rewrite P in *; try done.
  unfold with_backup. simpl. apply lookup_insert_ne, backup_path_other.
Qed.

Lemma process_file_untouched (f : fs) (p q : path) :
  q <> p -> q <> backup_path p ->
  nodes (process_file f p).1 !! q = nodes f !! q
  /\ write_raises (process_file f p).1 = write_raises f.
Proof.
  intros Hp Hb. destruct (process_file_cases f p)
    as [[_ P]|[(e & _ & P)|(content & E & [[_ P]|[(_ & e & _ & P)|[(_ & _ & e & _ & P)|(Ht & Eb & Ew & P)]]])]];
    rewrite P; try done; unfold with_backup, written; simpl.
  - by rewrite lookup_insert_ne.
  - by rewrite !lookup_insert_ne.
Qed.

(** X3: [process_file] touches no path but the file and its backup, and
    never the set of paths that cannot be written. *)
Theorem process_file_frame (f : fs) (p q : path) :
  q <> p -> q <> backup_path p ->
  nodes (process_file f p).1 !! q = nodes f !! q
  /\ write_raises (process_file f p).1 = write_raises f.
Proof. apply process_file_untouched. Qed.

Lemma examples_length (ms : list re_match) : forall i,
  (length (examples i ms) <= 4 - i)%nat.
Proof.
  induction ms as [|mt ms IH]; intros i; cbn [examples length]; [lia|].
  rewrite length_app. specialize (IH (S i)).
  destruct (Nat.leb i 3) eqn:E; [apply Nat.leb_le in E|apply Nat.leb_gt in E];
    cbn [length]; lia.
Qed.

Lemma str_nat_small (i : nat) : (i <= 3)%nat -> length (str_nat i) = 1%nat.
Proof. intros H. by do 4 (destruct i as [|i]; [done|]); lia. Qed.

Lemma examples_width (ms : list re_match) : forall i w,
  In w (examples i ms) -> (length w <= 77)%nat.
Proof.
  induction ms as [|mt ms IH]; intros i w H; simpl in H; [done|].
  apply in_app_or in H as [H|H]; [|by eapply IH].
  destruct (Nat.leb i 3) eqn:E; [|done]. apply Nat.leb_le in E.
  destruct H as [<- | []]. unfold msg_example. rewrite !length_app, (str_nat_small i E).
  pose proof (firstn_le_length 60 (m_all mt)).
  change (length (lit "   Exemple ")) with 11%nat. change (length (lit ": ")) with 2%nat.
  change (length (lit "...")) with 3%nat. unfold group. lia.
Qed.

(** X4: whatever the file, [process_file] returns at most four warnings: the
    count of the calls that remain and at most three examples, each of at
    most 77 characters (a snippet of at most 60). *)
Theorem process_file_warnings_bounded (f : fs) (p : path) :
  (length (process_file f p).2.1.2 <= 4)%nat
  /\ forall w, In w (drop 1 (process_file f p).2.1.2) -> (length w <= 77)%nat.
Proof.
  destruct (process_file_cases f p)
    as [[_ P]|[(e & _ & P)|(content & E & [[_ P]|[(_ & e & _ & P)|[(_ & _ & e & _ & P)|(Ht & Eb & Ew & P)]]])]];
    rewrite P; simpl; try (split; [lia|done]).
  unfold warnings_of. destruct (Nat.ltb _ _); simpl; [|split; [lia|done]].
  pose proof (examples_length (re_finditer remaining_re (transform content)) 1).
  split; [lia|]. rewrite drop_0. apply examples_width.
Qed.

(** X5: a readable file whose text does not hold the word [toast] is never
    written: [process_file] leaves the files as they are and returns the
    message that nothing had to change, with a count of 0. *)
Theorem process_file_without_toast (f : fs) (p : path) (content : text) :
  nodes f !! p = Some (File content) ->
  contains (lit "toast") content = false ->
  process_file f p = (f, (false, [msg_no_change], 0%Z)).
Proof.
  intros E H. destruct (transform_without_toast content H) as (Ht & _ & _).
  rewrite (process_file_fixpoint _ _ _ E Ht). by rewrite Z.sub_diag.
Qed.

Lemma process_file_without_toast_witness :
  process_file (one_file (lit "const x = [a, b];")) (lit "src/a.tsx")
  = (one_file (lit "const x = [a, b];"), (false, [msg_no_change], 0%Z)).
Proof.
  apply (process_file_without_toast _ _ (lit "const x = [a, b];")).
  - vm_compute. reflexivity.
  - vm_compute. reflexivity.
Defined.

Lemma process_file_keeps_original_witness :
  nodes (process_file fs_read_only a_tsx).1 !! a_tsx = nodes fs_read_only !! a_tsx.
Proof. apply (process_file_keeps_original fs_read_only a_tsx). vm_compute. reflexivity. Defined.

Lemma process_file_frame_witness :
  nodes (process_file (one_file residual_text) a_tsx).1 !! lit "src/b.tsx"
  = nodes (one_file residual_text) !! lit "src/b.tsx"
  /\ write_raises (process_file (one_file residual_text) a_tsx).1
     = write_raises (one_file residual_text).
Proof.
  apply (process_file_frame (one_file residual_text) a_tsx (lit "src/b.tsx")).
  - vm_compute. discriminate.
  - vm_compute. discriminate.
Defined.

(** * Further properties of the loop of main *)

(** One turn of the loop, by what [process_file] returned. *)
Lemma main_step_unfold (f : fs) (t : tally) (rel : path) :
  main_step (f, t) rel
  = let r := process_file f (FRONTEND_DIR ++ lit "/" ++ rel) in
    (r.1,
     if negb (path_exists r.1 (FRONTEND_DIR ++ lit "/" ++ rel)) then skip t rel
     else if r.2.1.1 then
       if existsb (contains (lit "Il reste")) r.2.1.2 then
         MkTally (modified_files t ++ [rel]) (files_with_warnings t ++ [(rel, r.2.1.2)])
                 (total_toasts_replaced t + r.2.2)%Z (skipped_files t) (perfectly_migrated t)
       else
         MkTally (modified_files t ++ [rel]) (files_with_warnings t)
                 (total_toasts_replaced t + r.2.2)%Z (skipped_files t)
                 (perfectly_migrated t ++ [rel])
     else t).
Proof.
  unfold main_step. cbv zeta.
  destruct (process_file f (FRONTEND_DIR ++ lit "/" ++ rel)) as [f' [[changed warnings] stats]].
  simpl. destruct (negb (path_exists f' _)); [done|].
  destruct changed; [|done]. by destruct (existsb _ warnings).
Qed.

(** What one turn adds to the lists: at most the file, to the skipped files
    or to the modified ones, and then to exactly one of the two lists of the
    modified files. *)
Lemma main_step_lists (f : fs) (t : tally) (rel : path) :
  exists m s pm fw,
    modified_files (main_step (f, t) rel).2 = modified_files t ++ m
    /\ skipped_files (main_step (f, t) rel).2 = skipped_files t ++ s
    /\ perfectly_migrated (main_step (f, t) rel).2 = perfectly_migrated t ++ pm
    /\ files_with_warnings (main_step (f, t) rel).2 = files_with_warnings t ++ fw
    /\ m ++ s `sublist_of` [rel]
    /\ pm ++ map fst fw = m.
Proof.
  rewrite main_step_unfold. cbv zeta.
  destruct (negb (path_exists _ _)).
  { exists [], [rel], [], []. simpl. by rewrite !app_nil_r. }
  destruct (process_file f (FRONTEND_DIR ++ lit "/" ++ rel)).2.1.1.
  - destruct (existsb _ _).
    + exists [rel], [], [], [(rel, (process_file f (FRONTEND_DIR ++ lit "/" ++ rel)).2.1.2)].
      simpl. by rewrite !app_nil_r.
    + exists [rel], [], [rel], []. simpl. by rewrite !app_nil_r.
  - exists [], [], [], []. simpl. rewrite !app_nil_r. repeat split; try done.
    apply sublist_nil_l.
Qed.

Lemma main_fold_lists (files : list path) : forall (f : fs) (t : tally),
  exists m s pm fw,
    modified_files (fold_left main_step files (f, t)).2 = modified_files t ++ m
    /\ skipped_files (fold_left main_step files (f, t)).2 = skipped_files t ++ s
    /\ perfectly_migrated (fold_left main_step files (f, t)).2 = perfectly_migrated t ++ pm
    /\ files_with_warnings (fold_left main_step files (f, t)).2 = files_with_warnings t ++ fw
    /\ m `sublist_of` files /\ s `sublist_of` files
    /\ (length m + length s <= length files)%nat
    /\ pm `sublist_of` m /\ map fst fw `sublist_of` m
    /\ length m = (length pm + length fw)%nat.
Proof.
  induction files as [|rel files IH]; intros f t.
  - exists [], [], [], []. simpl. by rewrite !app_nil_r.
  - cbn [fold_left].
    destruct (main_step_lists f t rel) as (m1 & s1 & pm1 & fw1 & E1 & E2 & E3 & E4 & Hs & Hm).
    destruct (main_step (f, t) rel) as [f1 t1]. simpl in E1, E2, E3, E4.
    destruct (IH f1 t1) as (m2 & s2 & pm2 & fw2 & F1 & F2 & F3 & F4 & Hm2 & Hs2 & Hl & Hp & Hw & Hn).
    exists (m1 ++ m2), (s1 ++ s2), (pm1 ++ pm2), (fw1 ++ fw2).
    rewrite F1, F2, F3, F4, E1, E2, E3, E4, <- !app_assoc.
    repeat (split; [done|]).
    assert (Hm1 : m1 `sublist_of` [rel]).
    { etrans; [|exact Hs]. apply sublist_inserts_r. done. }
    assert (Hs1 : s1 `sublist_of` [rel]).
    { etrans; [|exact Hs]. apply sublist_inserts_l. done. }
    assert (Hl1 : (length m1 + length s1 <= 1)%nat).
    { apply sublist_length in Hs. by rewrite length_app in Hs. }
    split; [by apply (sublist_app m1 [rel])|]. split; [by apply (sublist_app s1 [rel])|].
    split; [rewrite !length_app; simpl; lia|].
    subst m1. split; [|split].
    + apply sublist_app; [|done]. by apply sublist_inserts_r.
    + rewrite map_app. apply sublist_app; [|done]. by apply sublist_inserts_l.
    + rewrite !length_app, length_map. lia.
Qed.

(** X6: the lists of the loop account for the files once each.  The modified
    and the skipped files are taken from the list of files in its order, and
    are together no more than the files; every modified file is either
    perfectly migrated or listed with its warnings, so that the two counts
    add up to the count of the modified files. *)
Theorem main_loop_accounting (f : fs) (files : list path) :
  let t := (main_loop f files).2 in
  modified_files t `sublist_of` files
  /\ skipped_files t `sublist_of` files
  /\ (length (modified_files t) + length (skipped_files t) <= length files)%nat
  /\ perfectly_migrated t `sublist_of` modified_files t
  /\ map fst (files_with_warnings t) `sublist_of` modified_files t
  /\ length (modified_files t)
     = (length (perfectly_migrated t) + length (files_with_warnings t))%nat.
Proof.
  cbv zeta. unfold main_loop.
  destruct (main_fold_lists files f empty_tally)
    as (m & s & pm & fw & -> & -> & -> & -> & H). simpl. done.
Qed.

Lemma process_file_success (f : fs) (p : path) (content : text) :
  nodes f !! p = Some (File content) -> transform content <> content ->
  write_raises f !! backup_path p = None -> write_raises f !! p = None ->
  process_file f p = (written f p content, (true, warnings_of content, replaced content)).
Proof.
  intros E Ht Eb Ew. destruct (process_file_cases f p)
    as [[E' _]|[(e & E' & _)|(content' & E' & [[Ht' _]|[(_ & e & Eb' & _)|[(_ & _ & e & Ew' & _)|(_ & _ & _ & P)]]])]];
    congruence.
Qed.

Lemma msg_remaining_says (n : nat) : contains (lit "Il reste") (msg_remaining n) = true.
Proof.
  unfold msg_remaining. apply (contains_app_r _ [9888; 65039]), contains_app_l.
  vm_compute. reflexivity.
Qed.

(** The warnings of a text mention calls that remain exactly when an opening
    [toast({] is left in the transformed text. *)
Lemma warnings_of_remaining (content : text) :
  existsb (contains (lit "Il reste")) (warnings_of content)
  = negb (Nat.eqb (re_count toast_open_re (transform content)) 0).
Proof.
  unfold warnings_of. destruct (re_count toast_open_re (transform content)) as [|n]; [done|].
  change (Nat.ltb 0 (S n)) with true. cbv iota. cbn [app existsb].
  by rewrite msg_remaining_says.
Qed.

(** X7: a file that [process_file] rewrites is added to the modified files
    and its count to the total; it is listed as perfectly migrated when no
    opening [toast({] is left in its new text, and with its warnings
    otherwise. *)
Theorem main_step_modified (f : fs) (t : tally) (rel : path) (content : text) :
  nodes f !! (FRONTEND_DIR ++ lit "/" ++ rel) = Some (File content) ->
  transform content <> content ->
  write_raises f !! backup_path (FRONTEND_DIR ++ lit "/" ++ rel) = None ->
  write_raises f !! (FRONTEND_DIR ++ lit "/" ++ rel) = None ->
  main_step (f, t) rel
  = (written f (FRONTEND_DIR ++ lit "/" ++ rel) content,
     if Nat.eqb (re_count toast_open_re (transform content)) 0 then
       MkTally (modified_files t ++ [rel]) (files_with_warnings t)
               (total_toasts_replaced t + replaced content)%Z (skipped_files t)
               (perfectly_migrated t ++ [rel])
     else
       MkTally (modified_files t ++ [rel])
               (files_with_warnings t ++ [(rel, warnings_of content)])
               (total_toasts_replaced t + replaced content)%Z (skipped_files t)
               (perfectly_migrated t)).
Proof.
  intros E Ht Eb Ew. rewrite main_step_unfold, (process_file_success _ _ _ E Ht Eb Ew).
  cbv zeta. cbn [fst snd]. rewrite warnings_of_remaining.
  assert (X : path_exists (written f (FRONTEND_DIR ++ lit "/" ++ rel) content)
                          (FRONTEND_DIR ++ lit "/" ++ rel) = true).
  { eapply path_exists_file. unfold written. simpl. apply lookup_insert_eq. }
  rewrite X. simpl negb. cbv iota.
  by destruct (Nat.eqb _ 0).
Qed.

Lemma main_step_modified_witness :
  main_step (MkFs {[ lit "src/a.tsx" := File call_done ]} ∅, empty_tally) (lit "a.tsx")
  = (written (MkFs {[ lit "src/a.tsx" := File call_done ]} ∅) (lit "src/a.tsx") call_done,
     MkTally [lit "a.tsx"] [] 1%Z [] [lit "a.tsx"]).
Proof.
  rewrite (main_step_modified _ _ _ call_done).
  - vm_compute. reflexivity.
  - vm_compute. reflexivity.
  - vm_compute. discriminate.
  - vm_compute. reflexivity.
  - vm_compute. reflexivity.
Defined.

Lemma main_fold_frame (files : list path) (q : path) :
  (forall rel, In rel files ->
     q <> FRONTEND_DIR ++ lit "/" ++ rel
     /\ q <> backup_path (FRONTEND_DIR ++ lit "/" ++ rel)) ->
  forall (f : fs) (t : tally),
    nodes (fold_left main_step files (f, t)).1 !! q = nodes f !! q
    /\ write_raises (fold_left main_step files (f, t)).1 = write_raises f.
Proof.
  induction files as [|rel files IH]; intros Hq f t; [done|].
  cbn [fold_left].
  destruct (Hq rel (or_introl eq_refl)) as [H1 H2].
  destruct (process_file_untouched f _ q H1 H2) as [F1 F2].
  assert (S : (main_step (f, t) rel).1 = (process_file f (FRONTEND_DIR ++ lit "/" ++ rel)).1)
    by (by rewrite main_step_unfold).
  destruct (main_step (f, t) rel) as [f1 t1]. cbn [fst] in S. subst f1.
  destruct (IH (fun r Hr => Hq r (or_intror Hr))
               (process_file f (FRONTEND_DIR ++ lit "/" ++ rel)).1 t1) as [G1 G2].
  by rewrite G1, G2, F1, F2.
Qed.

(** * update_app_tsx and main *)

(** All the ways [update_app_tsx] can go, its four substitutions taken
    together as [clean_app]. *)
Lemma update_app_tsx_cases (f : fs) :
  (nodes f !! app_file = None /\ update_app_tsx f = (f, false))
  \/ (exists e, nodes f !! app_file = Some (Unreadable e) /\ update_app_tsx f = (f, false))
  \/ (exists content, nodes f !! app_file = Some (File content)
      /\ ((clean_app content = content /\ update_app_tsx f = (f, false))
          \/ (clean_app content <> content
              /\ exists e, write_raises f !! backup_path app_file = Some e
                 /\ update_app_tsx f = (f, false))
          \/ (clean_app content <> content /\ write_raises f !! backup_path app_file = None
              /\ exists e, write_raises f !! app_file = Some e
                 /\ update_app_tsx f = (with_backup f app_file content, false))
          \/ (clean_app content <> content /\ write_raises f !! backup_path app_file = None
              /\ write_raises f !! app_file = None
              /\ update_app_tsx f
                 = (MkFs (<[app_file := File (clean_app content)]>
                            (<[backup_path app_file := File content]> (nodes f)))
                         (write_raises f), true)))).
Proof.
  unfold update_app_tsx, create_backup, read_text.
  destruct (nodes f !! app_file) as [[content|e]|] eqn:E.
  - right. right. exists content. split; [done|].
    rewrite (path_exists_file _ _ _ E). cbv zeta. simpl negb. cbv iota.
    change (re_sub sonner_tag_re [] _) with (clean_app content).
    destruct (decide (clean_app content = content)) as [Ht|Ht].
    + left. split; [done|]. by rewrite bool_decide_eq_true_2.
    + right. rewrite bool_decide_eq_false_2 by done. simpl. unfold write_text.
      destruct (write_raises f !! backup_path app_file) as [e|] eqn:Eb.
      * left. split; [done|]. by exists e.
      * right. simpl. destruct (write_raises f !! app_file) as [e|] eqn:Ew.
        -- left. repeat (split; [done|]). by exists e.
        -- right. done.
  - right. left. exists e. split; [done|]. by rewrite (path_exists_file _ _ _ E).
  - left. split; [done|]. unfold path_exists. rewrite E.
    by rewrite bool_decide_eq_false_2 by (by intros [? ?]).
Qed.


Lemma update_app_tsx_untouched (f : fs) (q : path) :
  q <> app_file -> q <> backup_path app_file ->
  nodes (update_app_tsx f).1 !! q = nodes f !! q
  /\ write_raises (update_app_tsx f).1 = write_raises f.
Proof.
  intros Hp Hb. destruct (update_app_tsx_cases f)
    as [[E P]|[(e & E & P)|(content & E & [[Ht P]|[(Ht & e & Eb & P)|[(Ht & Eb & e & Ew & P)|(Ht & Eb & Ew & P)]]])]];
    rewrite P; try done; unfold with_backup; cbn [fst nodes write_raises].
  - by rewrite lookup_insert_ne.
  - by rewrite !lookup_insert_ne.
Qed.

(** X9: whether the directory exists or not, [main] touches no path but the
    files of its list under [src], [src/App.tsx] and the backups of these,
    and never the set of paths that cannot be written. *)
Theorem main_frame (frontend_dir_exists : bool) (f : fs) (q : path) :
  (forall rel, In rel FILES_TO_PROCESS ->
     q <> FRONTEND_DIR ++ lit "/" ++ rel
     /\ q <> backup_path (FRONTEND_DIR ++ lit "/" ++ rel)) ->
  q <> app_file -> q <> backup_path app_file ->
  nodes (main frontend_dir_exists f).1 !! q = nodes f !! q
  /\ write_raises (main frontend_dir_exists f).1 = write_raises f.
Proof.
  intros Hq Ha Hb. unfold main. destruct frontend_dir_exists; cbn [negb]; [|done].
  unfold main_loop.
  destruct (main_fold_frame FILES_TO_PROCESS q Hq f empty_tally) as [F1 F2].
  destruct (fold_left main_step FILES_TO_PROCESS (f, empty_tally)) as [f1 t].
  destruct (update_app_tsx_untouched f1 q Ha Hb) as [G1 G2].
  destruct (update_app_tsx f1) as [f2 app_updated]. cbn [fst] in *.
  by rewrite G1, G2, F1, F2.
Qed.

Lemma main_frame_witness :
  nodes (main true (one_file call_done)).1 !! lit "src/other.ts"
  = nodes (one_file call_done) !! lit "src/other.ts"
  /\ write_raises (main true (one_file call_done)).1 = write_raises (one_file call_done).
Proof.
  apply (main_frame true (one_file call_done) (lit "src/other.ts")).
  - intros rel H. vm_compute in H.
    repeat (destruct H as [<- | H]; [split; vm_compute; discriminate|]). destruct H.
  - vm_compute. discriminate.
  - vm_compute. discriminate.
Defined.

(** ** The four substitutions of update_app_tsx *)

Lemma toaster_import_reads : reads (lit "Toaster") toaster_import_re.
Proof. apply reads_seq_r, reads_seq_r, reads_seq_r, reads_seq_r, reads_seq_l, reads_lit. Qed.

Lemma sonner_import_reads : reads (lit "Toaster") sonner_import_re.
Proof. apply reads_seq_r, reads_seq_r, reads_seq_r, reads_seq_r, reads_seq_l, reads_lit. Qed.

Lemma toaster_tag_reads : reads (lit "Toaster") toaster_tag_re.
Proof. apply reads_seq_l. by apply (reads_lit_mid _ (lit "<") _ []). Qed.

Lemma sonner_tag_reads : reads (lit "<Sonner") sonner_tag_re.
Proof. apply reads_seq_l, reads_lit. Qed.

Lemma toaster_import_reads_import : reads (lit "import") toaster_import_re.
Proof. apply reads_seq_l, reads_lit. Qed.

Lemma sonner_import_reads_import : reads (lit "import") sonner_import_re.
Proof. apply reads_seq_l, reads_lit. Qed.

Lemma toaster_tag_reads_tag : reads (lit "<Toaster") toaster_tag_re.
Proof. apply reads_seq_l, reads_lit. Qed.

Lemma clean_app_without (content : text) :
  contains (lit "Toaster") content = false -> contains (lit "<Sonner") content = false ->
  clean_app content = content.
Proof.
  intros H1 H2. unfold clean_app, re_sub.
  rewrite (reads_sub _ toaster_import_re) by (done || apply toaster_import_reads).
  rewrite (reads_sub _ sonner_import_re) by (done || apply sonner_import_reads).
  rewrite (reads_sub _ toaster_tag_re) by (done || apply toaster_tag_reads).
  by rewrite (reads_sub _ sonner_tag_re) by (done || apply sonner_tag_reads).
Qed.

(** X10: an [App.tsx] whose text holds neither the word [Toaster] nor a tag
    that opens with [<Sonner] is left as it is: the four substitutions change
    nothing, nothing is written and [update_app_tsx] returns false. *)
Theorem update_app_tsx_nothing_to_remove (f : fs) (content : text) :
  nodes f !! app_file = Some (File content) ->
  contains (lit "Toaster") content = false -> contains (lit "<Sonner") content = false ->
  clean_app content = content /\ update_app_tsx f = (f, false).
Proof.
  intros E H1 H2. pose proof (clean_app_without content H1 H2) as Hc. split; [done|].
  destruct (update_app_tsx_cases f)
    as [[E' P]|[(e & E' & P)|(c' & E' & [[Ht P]|[(Ht & e & Eb & P)|[(Ht & Eb & e & Ew & P)|(Ht & Eb & Ew & P)]]])]];
    try done; congruence.
Qed.

Lemma update_app_tsx_nothing_to_remove_witness :
  clean_app (lit "const App = () => <Router />;") = lit "const App = () => <Router />;"
  /\ update_app_tsx (app_only (lit "const App = () => <Router />;"))
     = (app_only (lit "const App = () => <Router />;"), false).
Proof.
  apply (update_app_tsx_nothing_to_remove _ (lit "const App = () => <Router />;")).
  - vm_compute. reflexivity.
  - vm_compute. reflexivity.
  - vm_compute. reflexivity.
Defined.

(** An optional character that is there, and one that is not. *)
Lemma m_opt_take (a : char) s c k o :
  k s c = Some o -> m (Opt (Chr a)) (a :: s) c k = Some o.
Proof. intros H. unfold Opt. cbn [m]. by rewrite N.eqb_refl, H. Qed.

Lemma m_opt_skip (a : char) s c k :
  head s <> Some a -> m (Opt (Chr a)) s c k = k s c.
Proof.
  intros H. unfold Opt. cbn [m]. destruct s as [|x s]; [done|].
  destruct (x =? a) eqn:E; [|done]. apply N.eqb_eq in E. subst x. by destruct H.
Qed.

Lemma stops_space_not_newline (s : text) : stops is_space s -> head s <> Some newline.
Proof. destruct s as [|x s]; [done|]. simpl. intros H [= ->]. done. Qed.

(** White space and an optional line feed, before a text that does not start
    with white space. *)
Lemma m_line_end (w s : text) c k o :
  spaces w -> stops is_space s -> k s c = Some o ->
  m (Seq ws_star (Opt (Chr newline))) (w ++ s) c k = Some o.
Proof.
  intros Hw Hs Hk. rewrite m_seq. apply m_star_cls_run; [done|done|].
  by rewrite m_opt_skip by (by apply stops_space_not_newline).
Qed.

(** The ending of an import, with its semicolon and without. *)
Lemma m_app_ending_semi (a : char) (w6 w7 s : text) c k o :
  spaces w6 -> spaces w7 -> stops is_space s -> is_space a = false -> k s c = Some o ->
  m (app_ending a) (w6 ++ [a] ++ w7 ++ s) c k = Some o.
Proof.
  intros H6 H7 Hs Ha Hk. unfold app_ending. rewrite m_seq.
  apply m_star_cls_run; [done|done|]. rewrite m_seq. cbn [app].
  apply m_opt_take. by apply m_line_end.
Qed.

Lemma m_app_ending_bare (a : char) (w6 s : text) c k o :
  spaces w6 -> stops is_space s -> head s <> Some a -> k s c = Some o ->
  m (app_ending a) (w6 ++ s) c k = Some o.
Proof.
  intros H6 Hs Ha Hk. unfold app_ending. rewrite m_seq.
  apply m_star_cls_run; [done|done|]. rewrite m_seq, m_opt_skip by done.
  by apply (m_line_end []).
Qed.

(** The import of [Toaster] is read whole, whatever its layout, as long as
    what follows its ending does not start with white space. *)
Lemma toaster_import_matches (w1 w2 w3 w4 w5 : text) (q1 q2 : char) (e rest : text) :
  spaces w1 -> spaces w2 -> spaces w3 -> spaces w4 -> spaces w5 ->
  is_quote q1 -> is_quote q2 ->
  (forall c k o, k rest c = Some o -> m (app_ending (ch ";")) (e ++ rest) c k = Some o) ->
  match_here toaster_import_re (toaster_import w1 w2 w3 w4 w5 q1 q2 e ++ rest)
  = Some (MkMatch (toaster_import w1 w2 w3 w4 w5 q1 q2 e) [], rest).
Proof.
  intros H1 H2 H3 H4 H5 Q1 Q2 He. apply match_here_intro.
  unfold toaster_import, toaster_import_re. cbn [Cat]. rewrite <- !app_assoc.
  rewrite m_seq, m_lit_hit, m_seq. apply m_star_cls_run; [done|done|].
  cbn [app]. rewrite m_seq, m_chr_hit, m_seq. apply m_star_cls_run; [done|done|].
  rewrite m_seq, m_lit_hit, m_seq. apply m_star_cls_run; [done|done|].
  cbn [app]. rewrite m_seq, m_chr_hit, m_seq. apply m_star_cls_run; [done|done|].
  rewrite m_seq, m_lit_hit, m_seq.
  apply m_star_cls_run; [done|by destruct Q1 as [-> | ->]|].
  cbn [app]. rewrite m_seq, m_cls_hit by (by apply quote_is_one_of).
  rewrite m_seq, m_lit_hit. cbn [app]. rewrite m_seq, m_cls_hit by (by apply quote_is_one_of).
  by apply He.
Qed.

Lemma toaster_import_not_empty w1 w2 w3 w4 w5 q1 q2 e :
  toaster_import w1 w2 w3 w4 w5 q1 q2 e <> [].
Proof. unfold toaster_import. intros H. apply app_eq_nil in H as [H _]. by vm_compute in H. Qed.

Lemma clean_app_after_import w1 w2 w3 w4 w5 q1 q2 e rest :
  match_here toaster_import_re (toaster_import w1 w2 w3 w4 w5 q1 q2 e ++ rest)
  = Some (MkMatch (toaster_import w1 w2 w3 w4 w5 q1 q2 e) [], rest) ->
  clean_app (toaster_import w1 w2 w3 w4 w5 q1 q2 e ++ rest) = clean_app rest.
Proof.
  intros H. unfold clean_app, re_sub at 4 8.
  rewrite (re_sub_with_hit toaster_import_re _ _ _ _ H) by apply toaster_import_not_empty.
  done.
Qed.

(** X11: [update_app_tsx] deletes an import of [Toaster] from
    [@/components/ui/toaster] in every layout: any white space between the
    words, either quote on either side of the module, with a semicolon or
    without one, together with the white space after it. The text that
    follows is cleaned as if the import had never stood before it. *)
Theorem toaster_import_is_removed (w1 w2 w3 w4 w5 : text) (q1 q2 : char) (e rest : text) :
  spaces w1 -> spaces w2 -> spaces w3 -> spaces w4 -> spaces w5 ->
  is_quote q1 -> is_quote q2 -> import_end rest e -> stops is_space rest ->
  clean_app (toaster_import w1 w2 w3 w4 w5 q1 q2 e ++ rest) = clean_app rest.
Proof.
  intros H1 H2 H3 H4 H5 Q1 Q2 He Hs.
  apply clean_app_after_import, toaster_import_matches; try done.
  intros c k o Hk. destruct He as [w Hw Hh|w w' Hw Hw'].
  - by apply m_app_ending_bare.
  - rewrite <- !app_assoc. by apply m_app_ending_semi.
Qed.

Lemma toaster_import_is_removed_witness :
  clean_app (toaster_import (lit " ") (lit " ") (lit " ") (lit " ") (lit " ") dquote squote
               ([] ++ [ch ";"] ++ [newline]) ++ lit "const a = 1;")
  = clean_app (lit "const a = 1;").
Proof.
  apply (toaster_import_is_removed (lit " ") (lit " ") (lit " ") (lit " ") (lit " ")
           dquote squote ([] ++ [ch ";"] ++ [newline]) (lit "const a = 1;")).
  - by repeat constructor.
  - by repeat constructor.
  - by repeat constructor.
  - by repeat constructor.
  - by repeat constructor.
  - by left.
  - by right.
  - apply end_semi; by repeat constructor.
  - by vm_compute.
Defined.

(** ** The tags *)

(** No match of a pattern that opens with a literal starts inside a text
    without the literal's first character. *)
Lemma quiet_lit (L L' : text) (r : regex) (c0 : char) (a b : text) :
  L = c0 :: L' -> Forall (fun x => x <> c0) a -> quiet (Seq (Lit L) r) a b.
Proof.
  intros -> H a1 x a2 ->. apply lit_mismatch. simpl.
  apply Forall_app in H as [_ H]. apply Forall_cons in H as [H _].
  destruct (c0 =? x) eqn:E; [|done]. apply N.eqb_eq in E. by subst x.
Qed.

Lemma self_closed_not_empty o w1 w2 : self_closed o w1 w2 <> [].
Proof.
  unfold self_closed. intros H. apply app_eq_nil in H as [_ H].
  apply app_eq_nil in H as [_ H]. apply app_eq_nil in H as [H _]. by vm_compute in H.
Qed.

Lemma self_closed_matches (o w1 w2 rest : text) :
  spaces w1 -> spaces w2 -> stops is_space rest ->
  match_here (Cat [Lit o; ws_star; Lit (lit "/>"); ws_star; Opt (Chr newline)])
    (self_closed o w1 w2 ++ rest)
  = Some (MkMatch (self_closed o w1 w2) [], rest).
Proof.
  intros H1 H2 Hs. apply match_here_intro. unfold self_closed. cbn [Cat].
  rewrite <- !app_assoc. rewrite m_seq, m_lit_hit, m_seq.
  apply m_star_cls_run; [done|by concrete_lit "/>"%string|].
  rewrite m_seq, m_lit_hit. by apply m_line_end.
Qed.

Lemma contains_app_false_l l a b : contains l (a ++ b) = false -> contains l a = false.
Proof.
  intros H. destruct (contains l a) eqn:E; [|done].
  by rewrite (contains_app_l _ _ b E) in H.
Qed.

Lemma spaces_lack (c0 : char) (w : text) :
  is_space c0 = false -> spaces w -> Forall (fun x => x <> c0) w.
Proof.
  intros Hc Hw. eapply Forall_impl; [apply Hw|]. intros x Hx ->. by rewrite Hx in Hc.
Qed.

Section Tags.
Variables (pre w1 w2 rest : text).
Hypothesis (Hpre : Forall (fun x => x <> ch "<") pre).
Hypothesis (H1 : spaces w1) (H2 : spaces w2) (Hs : stops is_space rest).

Lemma toaster_tag_sub :
  re_sub toaster_tag_re [] (pre ++ self_closed (lit "<Toaster") w1 w2 ++ rest)
  = pre ++ re_sub toaster_tag_re [] rest.
Proof using All.
  unfold re_sub. rewrite re_sub_with_quiet by (by eapply quiet_lit).
  by rewrite (re_sub_with_hit toaster_tag_re _ _ _ _
                (self_closed_matches (lit "<Toaster") w1 w2 rest H1 H2 Hs))
    by apply self_closed_not_empty.
Qed.

Lemma sonner_tag_sub :
  re_sub sonner_tag_re [] (pre ++ self_closed (lit "<Sonner") w1 w2 ++ rest)
  = pre ++ re_sub sonner_tag_re [] rest.
Proof using All.
  unfold re_sub. rewrite re_sub_with_quiet by (by eapply quiet_lit).
  by rewrite (re_sub_with_hit sonner_tag_re _ _ _ _
                (self_closed_matches (lit "<Sonner") w1 w2 rest H1 H2 Hs))
    by apply self_closed_not_empty.
Qed.

Lemma toaster_tag_skips_sonner :
  re_sub toaster_tag_re [] (pre ++ self_closed (lit "<Sonner") w1 w2 ++ rest)
  = pre ++ self_closed (lit "<Sonner") w1 w2 ++ re_sub toaster_tag_re [] rest.
Proof using All.
  unfold re_sub. rewrite re_sub_with_quiet by (by eapply quiet_lit).
  rewrite re_sub_with_quiet; [done|].
  unfold self_closed. concrete_lit "<Sonner"%string. cbn [app].
  apply quiet_cons; [by apply lit_mismatch|].
  eapply quiet_lit; [reflexivity|].
  repeat (apply Forall_cons; split; [done|]).
  apply Forall_app; split; [by apply spaces_lack|].
  concrete_lit "/>"%string. cbn [app].
  repeat (apply Forall_cons; split; [done|]). by apply spaces_lack.
Qed.

End Tags.

Lemma clean_app_without_import (s : text) :
  contains (lit "import") s = false ->
  clean_app s = re_sub sonner_tag_re [] (re_sub toaster_tag_re [] s).
Proof.
  intros H. unfold clean_app. unfold re_sub at 3 4.
  rewrite (reads_sub _ toaster_import_re) by (done || apply toaster_import_reads_import).
  by rewrite (reads_sub _ sonner_import_re) by (done || apply sonner_import_reads_import).
Qed.

(** X12: in a text without the word [import], a [Toaster] tag that closes
    itself is deleted with the white space after it, whatever white space
    stands inside it; the text before it, when it holds no opening angle
    bracket, is kept and the text after it is cleaned on its own. *)
Theorem toaster_tag_is_removed (pre w1 w2 rest : text) :
  Forall (fun x => x <> ch "<") pre -> spaces w1 -> spaces w2 -> stops is_space rest ->
  contains (lit "import") (pre ++ self_closed (lit "<Toaster") w1 w2 ++ rest) = false ->
  clean_app (pre ++ self_closed (lit "<Toaster") w1 w2 ++ rest) = pre ++ clean_app rest.
Proof.
  intros Hpre H1 H2 Hs Hi. rewrite clean_app_without_import by done.
  rewrite toaster_tag_sub by done.
  rewrite (clean_app_without_import rest)
    by (by eapply contains_app_false_r, contains_app_false_r).
  unfold re_sub at 1. by rewrite re_sub_with_quiet by (by eapply quiet_lit).
Qed.

Lemma toaster_tag_is_removed_witness :
  clean_app (lit "return (" ++ self_closed (lit "<Toaster") (lit " ") [newline]
             ++ lit "<Router />);")
  = lit "return (" ++ clean_app (lit "<Router />);").
Proof.
  apply (toaster_tag_is_removed (lit "return (") (lit " ") [newline] (lit "<Router />);")).
  - repeat (constructor; [by vm_compute|]). constructor.
  - by repeat constructor.
  - by repeat constructor.
  - by vm_compute.
  - by vm_compute.
Defined.

(** X13: in a text without the word [import], a [Sonner] tag that closes
    itself is deleted with the white space after it when no [Toaster] tag
    follows it; the text before it, when it holds no opening angle bracket,
    is kept and the text after it is cleaned on its own. *)
Theorem sonner_tag_is_removed (pre w1 w2 rest : text) :
  Forall (fun x => x <> ch "<") pre -> spaces w1 -> spaces w2 -> stops is_space rest ->
  contains (lit "import") (pre ++ self_closed (lit "<Sonner") w1 w2 ++ rest) = false ->
  contains (lit "<Toaster") rest = false ->
  clean_app (pre ++ self_closed (lit "<Sonner") w1 w2 ++ rest) = pre ++ clean_app rest.
Proof.
  intros Hpre H1 H2 Hs Hi Ht. rewrite clean_app_without_import by done.
  rewrite toaster_tag_skips_sonner by done.
  rewrite (clean_app_without_import rest)
    by (by eapply contains_app_false_r, contains_app_false_r).
  unfold re_sub at 2 4.
  rewrite !(reads_sub _ toaster_tag_re) by (done || apply toaster_tag_reads_tag).
  by apply sonner_tag_sub.
Qed.

Lemma sonner_tag_is_removed_witness :
  clean_app (lit "return (" ++ self_closed (lit "<Sonner") (lit " ") [newline]
             ++ lit "<Router />);")
  = lit "return (" ++ clean_app (lit "<Router />);").
Proof.
  apply (sonner_tag_is_removed (lit "return (") (lit " ") [newline] (lit "<Router />);")).
  - repeat (constructor; [by vm_compute|]). constructor.
  - by repeat constructor.
  - by repeat constructor.
  - by vm_compute.
  - by vm_compute.
  - by vm_compute.
Defined.

(** * Further properties of replace_toast_multiline *)

(** X14: the pattern matches at the head of a text exactly when the text
    starts with a call [toast ( { body } )], with any white space after the
    word and around the braces, whose body is not empty and holds no closing
    brace; the match is the call and its first group is the body. *)
Theorem pattern_match_iff (s : text) (mt : re_match) (rest : text) :
  match_here pattern s = Some (mt, rest)
  <-> exists a b body c,
        spaces a /\ spaces b /\ spaces c /\ body <> [] /\ Forall (fun x => x <> ch "}") body
        /\ s = call a b body c ++ rest
        /\ mt = MkMatch (call a b body c) [(1%nat, body)].
Proof.
  split.
  - intros H. apply match_here_sound in H as [-> D]. destruct mt as [w c]. simpl in *.
    apply den_pattern in D as (a & b & body & c' & -> & -> & Ha & Hb & Hc & Hne & Hbody).
    by exists a, b, body, c'.
  - intros (a & b & body & c & Ha & Hb & Hc & Hne & Hbody & -> & ->).
    by apply pattern_matches_call.
Qed.

Lemma templated_in_body (key : text) (mt tp : re_match) :
  re_search (Seq (Lit key) (Seq ws_star template_value)) (group 1 mt) = Some tp ->
  in_body mt (templated tp) /\ truthy (Some (templated tp)) = true.
Proof.
  intros H. destruct (search_template_field _ _ _ H) as (before & w & after & E & _).
  split; [|done]. split; [left; by eexists|].
  exists (before ++ key ++ w), after. by rewrite E, <- !app_assoc.
Qed.

Lemma quoted_in_body (key : text) (mt tm : re_match) :
  re_search (Seq (Lit key) (Seq ws_star quoted_value)) (group 1 mt) = Some tm ->
  in_body mt (quoted tm) /\ truthy (Some (quoted tm)) = true.
Proof.
  intros H.
  destruct (search_quoted_field _ _ _ H) as (before & w & after & E & _ & q & v & Hq & Eq).
  split; [|by rewrite Eq]. split; [right; by exists q, v|].
  exists (before ++ key ++ w), after. by rewrite E, <- !app_assoc.
Qed.

(** X15: what [replace_callback] can return.  Either nothing is extracted and
    the match is returned as it is, or the replacement is one of four calls
    whose arguments are literals that stand in the body of the match:
    [showError(t)] or [showError(t, d)] when the body holds a destructive
    variant, [showToast(t, "success")] or [showSuccess(t, d)] when it does
    not. *)
Theorem replace_callback_shapes (mt : re_match) :
  (unextractable mt /\ replace_callback mt = group 0 mt)
  \/ exists t, in_body mt t
     /\ (replace_callback mt
         = (if bool_decide (is_Some (re_search variant_re (group 1 mt)))
            then lit "showError(" ++ t ++ lit ")"
            else lit "showToast(" ++ t ++ lit ", " ++ dq (lit "success") ++ lit ")")
         \/ exists d, in_body mt d
            /\ replace_callback mt
               = (if bool_decide (is_Some (re_search variant_re (group 1 mt)))
                  then lit "showError(" else lit "showSuccess(")
                 ++ t ++ lit ", " ++ d ++ lit ")").
Proof.
  unfold replace_callback, unextractable. cbv zeta.
  destruct (re_search title_template_re (group 1 mt)) as [tp|] eqn:E1;
  destruct (re_search title_re (group 1 mt)) as [tm|] eqn:E2;
  destruct (re_search desc_template_re (group 1 mt)) as [dt|] eqn:E3;
  destruct (re_search desc_re (group 1 mt)) as [dm|] eqn:E4;
  try (apply (templated_in_body (lit "title:")) in E1 as [B1 T1]);
  try (apply (quoted_in_body (lit "title:")) in E2 as [B2 T2]);
  try (apply (templated_in_body (lit "description:")) in E3 as [B3 T3]);
  try (apply (quoted_in_body (lit "description:")) in E4 as [B4 T4]);
  rewrite ?T3, ?T4; cbn [truthy default];
  destruct (bool_decide (is_Some (re_search variant_re (group 1 mt))));
  first
    [ by left
    | right;
      match goal with
      | B : in_body _ ?t |- _ =>
          exists t; split; [exact B|];
          first
            [ left; reflexivity
            | right;
              match goal with
              | B' : in_body _ ?d |- _ => exists d; split; [exact B'|reflexivity]
              end ]
      end ].
Qed.

(** * Further properties of the cleaning of the dependency lists *)

(** A substitution seen piece by piece. *)
Lemma pieces_sublist (F G : piece -> text) (l : list piece) :
  (forall p, In p l -> F p `sublist_of` G p) ->
  concat (map F l) `sublist_of` concat (map G l).
Proof.
  induction l as [|p l IH]; intros H; simpl; [done|].
  apply sublist_app; [apply H; by left|]. apply IH. intros q Hq. apply H. by right.
Qed.

Lemma pieces_not_longer (F G : piece -> text) (l : list piece) :
  (forall p, In p l -> (length (F p) <= length (G p))%nat) ->
  (length (concat (map F l)) <= length (concat (map G l)))%nat.
Proof.
  induction l as [|p l IH]; intros H; simpl; [done|].
  rewrite !length_app. pose proof (H p (or_introl eq_refl)).
  assert (length (concat (map F l)) <= length (concat (map G l)))%nat; [|lia].
  apply IH. intros q Hq. apply H. by right.
Qed.

Lemma pieces_shorter (F G : piece -> text) (l : list piece) (p : piece) :
  (forall q, In q l -> (length (F q) <= length (G q))%nat) ->
  In p l -> (length (F p) < length (G p))%nat ->
  (length (concat (map F l)) < length (concat (map G l)))%nat.
Proof.
  intros H Hp Hlt. apply in_split in Hp as (l1 & l2 & ->).
  rewrite !map_app, !concat_app, !length_app. simpl. rewrite !length_app.
  assert (length (concat (map F l1)) <= length (concat (map G l1)))%nat.
  { apply pieces_not_longer. intros q Hq. apply H, in_or_app. by left. }
  assert (length (concat (map F l2)) <= length (concat (map G l2)))%nat; [|lia].
  apply pieces_not_longer. intros q Hq. apply H, in_or_app. right. by right.
Qed.

Lemma re_search_scan (r : regex) (s : text) :
  re_search r s <> None -> exists mt, In (Hit mt) (scan r O s).
Proof.
  intros H. apply re_search_count in H. unfold re_count in H.
  destruct (re_finditer r s) as [|mt l] eqn:E; [done|].
  exists mt. apply finditer_in_scan. rewrite E. by left.
Qed.

(** Every match of one of the three patterns is its two ends around the word
    and white space. *)
Lemma dep_hit (c1 c2 : char) (mt : re_match) (s : text) :
  In (Hit mt) (scan (dep_shape c1 c2) O s) ->
  exists w, m_all mt = [c1] ++ w ++ [c2] /\ (5 <= length w)%nat.
Proof.
  intros H. apply scan_hit_origin in H as (s' & rest & H).
  apply match_here_sound in H as [_ D].
  apply den_dep_shape in D as (w1 & w2 & _ & _ & ->).
  exists (w1 ++ lit "toast" ++ w2). split; [by rewrite <- !app_assoc|].
  rewrite !length_app. change (length (lit "toast")) with 5%nat. lia.
Qed.

Lemma dep_sub_sublist (c1 c2 : char) (repl s : text) :
  repl `sublist_of` [c1; c2] -> re_sub (dep_shape c1 c2) repl s `sublist_of` s.
Proof.
  intros Hr. unfold re_sub, re_sub_with.
  rewrite <- (scan_reconstruct (dep_shape c1 c2) s O) at 2 by lia.
  apply pieces_sublist. intros [x|mt] Hp; [done|].
  apply dep_hit in Hp as (w & -> & _). etrans; [exact Hr|].
  apply (sublist_app [c1] [c1] [c2] (w ++ [c2])); [done|]. by apply sublist_inserts_l.
Qed.

Lemma dep_sub_shorter (c1 c2 : char) (repl s : text) :
  (length repl <= 2)%nat -> re_search (dep_shape c1 c2) s <> None ->
  (length (re_sub (dep_shape c1 c2) repl s) < length s)%nat.
Proof.
  intros Hr H. apply re_search_scan in H as (mt & H). unfold re_sub, re_sub_with.
  rewrite <- (scan_reconstruct (dep_shape c1 c2) s O) at 2 by lia.
  apply (pieces_shorter _ _ _ (Hit mt)); [|done|].
  - intros [x|mt'] Hp; [done|]. apply dep_hit in Hp as (w & -> & Hw).
    rewrite !length_app. simpl. lia.
  - apply dep_hit in H as (w & -> & Hw). rewrite !length_app. simpl. lia.
Qed.

(** X16: the cleaning of the dependency lists only deletes: its result is the
    text with some characters left out, in the same order.  It leaves the
    text as it is exactly when none of its three patterns is found in it. *)
Theorem clean_deps_only_deletes (s : text) :
  clean_deps s `sublist_of` s
  /\ (clean_deps s = s
      <-> re_search dep_last_re s = None /\ re_search dep_first_re s = None
          /\ re_search dep_only_re s = None).
Proof.
  pose proof (dep_sub_sublist (ch ",") (ch "]") (lit "]") s) as S1.
  pose proof (dep_sub_sublist (ch "[") (ch ",") (lit "[")
                (re_sub dep_last_re (lit "]") s)) as S2.
  pose proof (dep_sub_sublist (ch "[") (ch "]") (lit "[]")
                (re_sub dep_first_re (lit "[") (re_sub dep_last_re (lit "]") s))) as S3.
  assert (T1 : re_sub dep_last_re (lit "]") s `sublist_of` s)
    by (apply S1; by apply sublist_cons_r; left).
  assert (T2 : re_sub dep_first_re (lit "[") (re_sub dep_last_re (lit "]") s)
               `sublist_of` re_sub dep_last_re (lit "]") s)
    by (apply S2; by apply sublist_skip, sublist_nil_l).
  assert (T3 : clean_deps s
               `sublist_of` re_sub dep_first_re (lit "[") (re_sub dep_last_re (lit "]") s))
    by (by apply S3).
  clear S1 S2 S3. split; [by etrans; [|etrans]|].
  apply sublist_length in T1 as L1. apply sublist_length in T2 as L2.
  apply sublist_length in T3 as L3. split.
  - intros E. rewrite E in L3.
    destruct (re_search dep_last_re s) eqn:E1.
    { assert (N : re_search dep_last_re s <> None) by congruence.
      apply (dep_sub_shorter (ch ",") (ch "]") (lit "]")) in N; [|vm_compute; lia].
      change (dep_shape (ch ",") (ch "]")) with dep_last_re in N. lia. }
    assert (R1 : re_sub dep_last_re (lit "]") s = s) by (by apply re_search_none_sub).
    rewrite R1 in *.
    destruct (re_search dep_first_re s) eqn:E2.
    { assert (N : re_search dep_first_re s <> None) by congruence.
      apply (dep_sub_shorter (ch "[") (ch ",") (lit "[")) in N; [|vm_compute; lia].
      change (dep_shape (ch "[") (ch ",")) with dep_first_re in N. lia. }
    assert (R2 : re_sub dep_first_re (lit "[") s = s) by (by apply re_search_none_sub).
    rewrite R2 in *.
    destruct (re_search dep_only_re s) eqn:E3; [|done].
    assert (N : re_search dep_only_re s <> None) by congruence.
    apply (dep_sub_shorter (ch "[") (ch "]") (lit "[]")) in N; [|vm_compute; lia].
    change (dep_shape (ch "[") (ch "]")) with dep_only_re in N.
    unfold clean_deps in E. rewrite R1, R2 in E. rewrite E in N. lia.
  - intros (E1 & E2 & E3). unfold clean_deps, re_sub.
    by rewrite (re_search_none_sub _ _ _ E1), (re_search_none_sub _ _ _ E2),
      (re_search_none_sub _ _ _ E3).
Qed.

(** * Escaped quotes in a title *)

Lemma escaped_words_unquoted (v : text) : escaped_words v -> unquoted v.
Proof.
  induction 1 as [|x v Hx Hv IH|o v Ho Hv IH]; [constructor| |by constructor].
  apply unq_plain; [by apply word_char_plain|done].
Qed.

Lemma escaped_words_lack (a : char) (v : text) :
  word_char a = false -> ~ is_quote a -> a <> bslash ->
  escaped_words v -> Forall (fun x => x <> a) v.
Proof.
  intros Ha Hq Hb. induction 1 as [|x v Hx Hv IH|o v Ho Hv IH]; [constructor| |].
  - constructor; [|done]. intros ->. congruence.
  - constructor; [done|]. constructor; [|done]. by intros ->.
Qed.

(** The lazy repetition over a value runs up to the closing quote, where the
    match goes on: it is not tempted by the quotes that a backslash escapes. *)
Lemma lazy_value_runs (q : char) (rest : text) (K : cont) (c : caps) (o : text * caps) :
  is_quote q ->
  (forall x s, x <> q -> K (x :: s) c = None) ->
  K (q :: rest) c = Some o ->
  forall v, escaped_words v ->
  forall n, (length (v ++ q :: rest) <= n)%nat ->
  star_loop (m value_step) false K n (v ++ q :: rest) c = Some o.
Proof.
  intros Hq HK Hend v Hv. induction Hv as [|x v Hx Hv IH|y v Hy Hv IH]; intros n Hn.
  - destruct n as [|n]; simpl; by rewrite Hend.
  - assert (Hp : none_of [dquote; squote; bslash] x = true) by (by apply word_char_plain).
    assert (Hxq : x <> q) by (by apply plain_not_quote).
    destruct n as [|n]; [simpl in Hn; lia|]. simpl. rewrite (HK x) by done.
    rewrite Hp. simpl in Hn.
    replace (Nat.ltb _ _) with true by (symmetry; apply Nat.ltb_lt; lia).
    rewrite IH by lia. done.
  - assert (Hbq : bslash <> q) by (by destruct Hq as [-> | ->]).
    destruct n as [|n]; [simpl in Hn; lia|]. simpl. rewrite (HK bslash) by done.
    replace (dot y) with true by (by destruct Hy as [-> | ->]). simpl in Hn.
    replace (Nat.ltb _ _) with true by (symmetry; apply Nat.ltb_lt; lia).
    rewrite IH by lia. done.
Qed.

(** The quoted form of a field matches at a field whose string holds words
    and escaped quotes: the first group is the quote, the second the string
    as it stands, backslashes included. *)
Lemma quoted_field_matches (key w v rest : text) (q : char) :
  spaces w -> is_quote q -> escaped_words v ->
  match_here (Seq (Lit key) (Seq ws_star quoted_value)) ((key ++ w ++ [q] ++ v ++ [q]) ++ rest)
  = Some (MkMatch (key ++ w ++ [q] ++ v ++ [q]) [(2%nat, v); (1%nat, [q])], rest).
Proof.
  intros Hw Hq Hv. apply match_here_intro. rewrite <- !app_assoc.
  rewrite m_seq, m_lit_hit, m_seq.
  apply m_star_cls_run; [done|by apply quote_not_space|].
  unfold quoted_value. cbn [Cat]. rewrite m_seq, m_group. cbn [app].
  rewrite m_cls_hit by (by apply quote_is_one_of).
  change (take _ _) with (take (length ([q] ++ (v ++ [q] ++ rest)) - length (v ++ [q] ++ rest))
                               ([q] ++ (v ++ [q] ++ rest))).
  rewrite firstn_consumed. rewrite m_seq, m_group. cbn [m app].
  apply lazy_value_runs; [done| | |done|done].
  - intros x s Hx. simpl. apply N.eqb_neq in Hx. by rewrite N.eqb_sym, Hx.
  - change (v ++ q :: rest) with (v ++ ([q] ++ rest)). rewrite firstn_consumed.
    simpl. by rewrite N.eqb_refl.
Qed.

Section EscapedTitle.
Variables (w0 w w1 v : text) (q : char).
Hypothesis (Hw0 : spaces w0) (Hw : spaces w) (Hw1 : spaces w1).
Hypothesis (Hq : is_quote q) (Hv : escaped_words v).

Lemma title_tail_lacks (a : char) :
  is_space a = false -> ~ is_quote a -> word_char a = false -> a <> bslash ->
  Forall (fun x => x <> a) (w ++ [q] ++ v ++ [q] ++ w1).
Proof using Hw Hw1 Hq Hv.
  intros Ha1 Ha2 Ha3 Ha4.
  assert (Q : q <> a) by (by intros ->).
  repeat (apply Forall_app; split); try (by apply spaces_lack);
    try (by apply escaped_words_lack); by repeat constructor.
Qed.

Lemma title_tail_no_colon : Forall (fun x => x <> ch ":") (w ++ [q] ++ v ++ [q] ++ w1).
Proof using Hw Hw1 Hq Hv. apply title_tail_lacks; try done. by intros [? | ?]. Qed.

Lemma title_body_no_brace : Forall (fun x => x <> ch "}") (title_body w0 w v w1 q).
Proof using All.
  unfold title_body. apply Forall_app; split; [by apply spaces_lack|].
  apply Forall_app; split; [by vm_compute; repeat constructor|].
  apply title_tail_lacks; try done. by intros [? | ?].
Qed.

Lemma escaped_title_found :
  re_search title_re (title_body w0 w v w1 q)
  = Some (MkMatch (lit "title:" ++ w ++ [q] ++ v ++ [q]) [(2%nat, v); (1%nat, [q])]).
Proof using All.
  unfold title_body. rewrite (re_search_quiet _ w0).
  - apply (re_search_hit _ _ _ w1).
    pose proof (quoted_field_matches (lit "title:") w v w1 q Hw Hq Hv) as H.
    by rewrite <- !app_assoc in H.
  - apply (quiet_first _ (ch "t")); [done|]. by apply spaces_lack.
Qed.

Lemma escaped_title_alone :
  re_search title_template_re (title_body w0 w v w1 q) = None
  /\ re_search desc_re (title_body w0 w v w1 q) = None
  /\ re_search desc_template_re (title_body w0 w v w1 q) = None
  /\ re_search variant_re (title_body w0 w v w1 q) = None.
Proof using All.
  pose proof title_tail_no_colon as HT. unfold title_body.
  split; [|split; [|split]].
  - apply (field_search_none _ _ _ _ _ (ch "t")); try done.
    + by apply (reads_lit_mid _ (lit "title") _ []).
    + concrete_lit "title:"%string. apply quiet_cons; [|quiet_rest].
      by apply (template_field_fails (lit "title:") w _ q).
  - apply (field_search_none _ _ _ _ _ (ch "d")); try done.
    + by apply (reads_lit_mid _ (lit "description") _ []).
    + concrete_lit "title:"%string. quiet_rest.
  - apply (field_search_none _ _ _ _ _ (ch "d")); try done.
    + by apply (reads_lit_mid _ (lit "description") _ []).
    + concrete_lit "title:"%string. quiet_rest.
  - apply (field_search_none (lit "variant:") _ _ _
             (Cat [Cls (one_of [dquote; squote]); Lit (lit "destructive");
                   Cls (one_of [dquote; squote])]) (ch "v")); try done.
    + by apply (reads_lit_mid _ (lit "variant") _ []).
    + concrete_lit "title:"%string. quiet_rest.
Qed.

End EscapedTitle.

(** X17: a call whose only field is a title between two quotes of the same
    kind, made of words and of quotes that a backslash escapes, is rewritten
    to [showToast(title, "success")] with the string as it stands, its
    backslashes included, for any white space in the call. *)
Theorem escaped_title_is_extracted (a b c w0 w w1 v rest : text) (q : char) :
  spaces a -> spaces b -> spaces c -> spaces w0 -> spaces w -> spaces w1 ->
  is_quote q -> escaped_words v ->
  replace_toast_multiline (call a b (title_body w0 w v w1 q) c ++ rest)
  = lit "showToast(" ++ ([q] ++ v ++ [q]) ++ lit ", " ++ dq (lit "success") ++ lit ")"
    ++ replace_toast_multiline rest.
Proof.
  intros Ha Hb Hc Hw0 Hw Hw1 Hq Hv.
  rewrite replace_toast_multiline_call; try done.
  - destruct (escaped_title_alone w0 w w1 v q) as (S1 & S2 & S3 & S4); try done.
    set (mt := MkMatch _ _).
    assert (G : group 1 mt = title_body w0 w v w1 q) by reflexivity.
    assert (C : replace_callback mt
                = lit "showToast(" ++ ([q] ++ v ++ [q]) ++ lit ", " ++ dq (lit "success")
                  ++ lit ")").
    { unfold replace_callback. cbv zeta.
      by rewrite G, S1, S2, S3, S4, (escaped_title_found w0 w w1 v q) by done. }
    rewrite C. by rewrite <- !app_assoc.
  - unfold title_body. intros E. apply app_eq_nil in E as [_ E].
    apply app_eq_nil in E as [E _]. by vm_compute in E.
  - by apply title_body_no_brace.
Qed.

(** [toast({ title: 'It\'s done' })] *)
Lemma escaped_title_is_extracted_witness :
  replace_toast_multiline
    (call [] [] (title_body (lit " ") (lit " ")
                   (lit "It" ++ [bslash; squote] ++ lit "s") (lit " ") squote) [] ++ [])
  = lit "showToast(" ++ ([squote] ++ (lit "It" ++ [bslash; squote] ++ lit "s") ++ [squote])
    ++ lit ", " ++ dq (lit "success") ++ lit ")" ++ replace_toast_multiline [].
Proof.
  apply (escaped_title_is_extracted [] [] [] (lit " ") (lit " ") (lit " ")
           (lit "It" ++ [bslash; squote] ++ lit "s") [] squote).
  - constructor.
  - constructor.
  - constructor.
  - by repeat constructor.
  - by repeat constructor.
  - by repeat constructor.
  - by right.
  - apply esc_word; [done|]. apply esc_word; [done|]. apply esc_quote; [by right|].
    apply esc_word; [done|]. apply esc_nil.
Defined.
